(** * CandleFlickerLED: the Timer0 overflow handler and its generator

    A shallow embedding of the interrupt handler [TIM0_OVF_vect] of
    [CandleFlickerLED.c].  The handler is written in AVR assembly over the
    registers r20..r23 (the generator RAND, r20 the low byte), r24 (the
    frame counter FRAME_CTR) and r31 (scratch).  Each instruction is a
    function on the machine state; each label of the handler is a
    definition whose body follows the instructions up to the next
    transfer of control. *)

From Stdlib Require Import ZArith List Bool Lia.
Import ListNotations.
Local Open Scope Z_scope.

(** ** Machine state *)

Module AVR.

Inductive reg := R20 | R21 | R22 | R23 | R24 | R31.

(** What a run of the handler does besides changing registers: a pass
    through the block at [.LNEW_RAND] and a write to the I/O register
    OCR0A (the [out] instruction), newest first. *)
Inductive event :=
| EvRegen
| EvWrite (v : Z).

Record cpu := mkCpu {
  r20 : Z; r21 : Z; r22 : Z; r23 : Z;   (* RAND, little endian *)
  r24 : Z;                              (* FRAME_CTR *)
  r31 : Z;                              (* scratch *)
  flagC : bool;                         (* SREG carry *)
  flagZ : bool;                         (* SREG zero *)
  OCR0A : Z;                            (* PWM compare register *)
  events : list event
}.

Definition get (r : reg) (s : cpu) : Z :=
  match r with
  | R20 => r20 s | R21 => r21 s | R22 => r22 s
  | R23 => r23 s | R24 => r24 s | R31 => r31 s
  end.

Definition set (r : reg) (v : Z) (s : cpu) : cpu :=
  match r with
  | R20 => mkCpu v (r21 s) (r22 s) (r23 s) (r24 s) (r31 s) (flagC s) (flagZ s) (OCR0A s) (events s)
  | R21 => mkCpu (r20 s) v (r22 s) (r23 s) (r24 s) (r31 s) (flagC s) (flagZ s) (OCR0A s) (events s)
  | R22 => mkCpu (r20 s) (r21 s) v (r23 s) (r24 s) (r31 s) (flagC s) (flagZ s) (OCR0A s) (events s)
  | R23 => mkCpu (r20 s) (r21 s) (r22 s) v (r24 s) (r31 s) (flagC s) (flagZ s) (OCR0A s) (events s)
  | R24 => mkCpu (r20 s) (r21 s) (r22 s) (r23 s) v (r31 s) (flagC s) (flagZ s) (OCR0A s) (events s)
  | R31 => mkCpu (r20 s) (r21 s) (r22 s) (r23 s) (r24 s) v (flagC s) (flagZ s) (OCR0A s) (events s)
  end.

Definition setC (c : bool) (s : cpu) : cpu :=
  mkCpu (r20 s) (r21 s) (r22 s) (r23 s) (r24 s) (r31 s) c (flagZ s) (OCR0A s) (events s).

Definition setZ (z : bool) (s : cpu) : cpu :=
  mkCpu (r20 s) (r21 s) (r22 s) (r23 s) (r24 s) (r31 s) (flagC s) z (OCR0A s) (events s).

Definition emit (e : event) (s : cpu) : cpu :=
  mkCpu (r20 s) (r21 s) (r22 s) (r23 s) (r24 s) (r31 s) (flagC s) (flagZ s) (OCR0A s)
        (e :: events s).

(** ** Instructions

    Only the carry and the zero flag are kept: no instruction of the
    handler reads N, V, S or H. *)

(** Store a result byte and set Z from it. *)
Definition result (rd : reg) (v : Z) (s : cpu) : cpu :=
  setZ (v =? 0) (set rd v s).

Definition inc (rd : reg) (s : cpu) : cpu :=
  result rd ((get rd s + 1) mod 256) s.

Definition andi (rd : reg) (k : Z) (s : cpu) : cpu :=
  result rd (Z.land (get rd s) k) s.

Definition ori (rd : reg) (k : Z) (s : cpu) : cpu :=
  result rd (Z.lor (get rd s) k) s.

Definition mov (rd rr : reg) (s : cpu) : cpu :=
  set rd (get rr s) s.

Definition ldi (rd : reg) (k : Z) (s : cpu) : cpu :=
  set rd k s.

Definition tst (rd : reg) (s : cpu) : cpu :=
  setZ (Z.land (get rd s) (get rd s) =? 0) s.

Definition lsr (rd : reg) (s : cpu) : cpu :=
  let v := get rd s in
  setC (Z.testbit v 0) (result rd (Z.shiftr v 1) s).

Definition ror (rd : reg) (s : cpu) : cpu :=
  let v := get rd s in
  setC (Z.testbit v 0)
       (result rd (Z.lor (if flagC s then 128 else 0) (Z.shiftr v 1)) s).

Definition eor (rd rr : reg) (s : cpu) : cpu :=
  result rd (Z.lxor (get rd s) (get rr s)) s.

Definition com (rd : reg) (s : cpu) : cpu :=
  setC true (result rd (255 - get rd s) s).

Definition cpi (rd : reg) (k : Z) (s : cpu) : cpu :=
  setC (get rd s <? k) (setZ (get rd s =? k) s).

Definition swap (rd : reg) (s : cpu) : cpu :=
  let v := get rd s in
  set rd (Z.lor (Z.shiftl (Z.land v 15) 4) (Z.shiftr v 4)) s.

(** [out %0,rr] with %0 the I/O address of OCR0A. *)
Definition out_OCR0A (rr : reg) (s : cpu) : cpu :=
  let v := get rr s in
  emit (EvWrite v)
       (mkCpu (r20 s) (r21 s) (r22 s) (r23 s) (r24 s) (r31 s) (flagC s) (flagZ s) v (events s)).

(** Conditions of the branches and of the skip. *)
Definition breq (s : cpu) : bool := flagZ s.
Definition brne (s : cpu) : bool := negb (flagZ s).
(** [sbrc rr,b] skips the next instruction when bit [b] of [rr] is clear. *)
Definition sbrc (rr : reg) (b : Z) (s : cpu) : bool := negb (Z.testbit (get rr s) b).

(** ** The handler, label by label (lines 105-173) *)

Definition L_RETI (s : cpu) : cpu := s.

Definition L_SET_PWM (s : cpu) : cpu :=
  L_RETI (out_OCR0A R31 s).

Definition L_NEW_PWM (s : cpu) : cpu :=
  let s := cpi R24 0x1F s in
  if brne s then L_RETI s
  else
    let s := ldi R31 0xFF s in
    if sbrc R20 4 s then
      (* rjmp skipped *)
      let s := mov R31 R20 s in
      let s := swap R31 s in
      let s := ori R31 0x0F s in
      L_SET_PWM s
    else L_SET_PWM s.

Definition L_NEW_RAND (s : cpu) : cpu :=
  let s := emit EvRegen s in            (* log entry only, no instruction *)
  let s := mov R31 R20 s in
  let s := lsr R23 s in
  let s := ror R22 s in
  let s := ror R21 s in
  let s := ror R20 s in
  if sbrc R31 0 s then
    (* rjmp skipped *)
    let s := ldi R31 0x59 s in
    let s := eor R20 R31 s in
    let s := ldi R31 0xF1 s in
    let s := eor R21 R31 s in
    let s := com R22 s in
    let s := ldi R31 0x7F s in
    let s := eor R23 R31 s in
    L_NEW_PWM s
  else L_NEW_PWM s.

Definition TIM0_OVF_vect (s : cpu) : cpu :=
  let s := inc R24 s in
  let s := andi R24 0x1F s in
  let s := mov R31 R24 s in
  let s := tst R24 s in
  if breq s then L_NEW_RAND s
  else
    let s := andi R31 7 s in
    if brne s then L_NEW_PWM s
    else
      let s := mov R31 R20 s in
      let s := andi R31 12 s in
      if brne s then L_NEW_PWM s
      else L_NEW_RAND s.

(** The state [main] leaves behind: r20..r24 cleared from r1, OCR0A = 0. *)
Definition power_on : cpu :=
  mkCpu 0 0 0 0 0 0 false false 0 [].

End AVR.

Import AVR.

(** ** The 32-bit view *)

Definition LFSR_FEEDBACK_TERM : Z := 0x7FFFF159.

(** RAND as one 32-bit value. *)
Definition RAND (s : cpu) : Z :=
  r20 s + 256 * r21 s + 65536 * r22 s + 16777216 * r23 s.

Definition FRAME_CTR (s : cpu) : Z := r24 s.

(** One pass through [.LNEW_RAND] on the 32-bit value: the register is
    shifted right and the feedback term is applied when the bit shifted
    out was clear (the skip at line 136 jumps over the [rjmp]). *)
Definition regen (x : Z) : Z :=
  if Z.testbit x 0 then Z.shiftr x 1
  else Z.lxor (Z.shiftr x 1) LFSR_FEEDBACK_TERM.

(** The byte the block at lines 161-167 leaves in r31. *)
Definition pwm_of (lo : Z) : Z :=
  if Z.testbit lo 4 then 0xFF
  else Z.lor (Z.lor (Z.shiftl (Z.land lo 15) 4) (Z.shiftr lo 4)) 0x0F.

Definition is_byte (v : Z) : Prop := 0 <= v < 256.

(** Registers hold bytes. *)
Definition wf (s : cpu) : Prop :=
  is_byte (r20 s) /\ is_byte (r21 s) /\ is_byte (r22 s) /\ is_byte (r23 s) /\
  is_byte (r24 s).

(** ** Derived notions *)

(** [P] holds of every value from 0 up to [n - 1]. *)
Fixpoint below (P : Z -> bool) (n : nat) : bool :=
  match n with
  | O => true
  | S k => P (Z.of_nat k) && below P k
  end.

(** FRAME_CTR after lines 109-110. *)
Definition next_ctr (s : cpu) : Z := Z.land ((r24 s + 1) mod 256) 0x1F.

(** The branches of lines 120-127 reach [.LNEW_RAND]. *)
Definition regenerates (s : cpu) : bool :=
  (next_ctr s =? 0) || ((Z.land (next_ctr s) 7 =? 0) && (Z.land (r20 s) 12 =? 0)).

(** The orbit of a value under [regen]. *)
Definition orbit (x : Z) (n : N) : Z := N.iter n regen x.

(** Walks the orbit and records whether the start value has come back. *)
Definition walk_step (start : Z) (p : Z * bool) : Z * bool :=
  let y := regen (fst p) in (y, snd p || (y =? start)).

(** The value after [n] steps from [start], and whether one of the steps
    1..n came back to [start]. *)
Definition walk (start : Z) (n : N) : Z * bool :=
  N.iter n (walk_step start) (start, false).

(** Steps after which the orbit of 0 is back at 0. *)
Definition orbit_length : N := 436905.

(** [n] consecutive timer overflows. *)
Definition ticks (n : nat) (s : cpu) : cpu := Nat.iter n TIM0_OVF_vect s.

(** Passes through [.LNEW_RAND] in a log. *)
Fixpoint count_regen (l : list event) : Z :=
  match l with
  | [] => 0
  | EvRegen :: l' => 1 + count_regen l'
  | EvWrite _ :: l' => count_regen l'
  end.

(** Writes to OCR0A in a log. *)
Fixpoint count_write (l : list event) : Z :=
  match l with
  | [] => 0
  | EvRegen :: l' => count_write l'
  | EvWrite _ :: l' => 1 + count_write l'
  end.

(** How often [p] holds of the frame counter in the [n] ticks after a
    tick that left the counter at [c]. *)
Fixpoint frames (p : Z -> bool) (c : Z) (n : nat) : Z :=
  match n with
  | O => 0
  | S m => frames p c m + (if p ((c + Z.of_nat (S m)) mod 32) then 1 else 0)
  end.

(** The regeneration step in the specification's words: the feedback
    constant is applied when the bit shifted out was 1. *)
Definition regen_as_specified (x : Z) : Z :=
  if Z.testbit x 0 then Z.lxor (Z.shiftr x 1) LFSR_FEEDBACK_TERM
  else Z.shiftr x 1.

(** Sample states: low byte 0b00000101 before the commit frame; low byte
    0x0F before the commit frame; low byte 0b00010011 before checkpoint
    8; the all-zero generator before frame 0; an idle frame with OCR0A
    holding 0x7F; a generator with bit 31 set before frame 0. *)
Definition commit_example : cpu := mkCpu 5 0 0 0 30 0 false false 0 [].

Definition level_example : cpu := mkCpu 0x0F 0 0 0 30 0 false false 0 [].

Definition checkpoint_example : cpu := mkCpu 0x13 0 0 0 7 0 false false 0 [].

Definition frame0_example : cpu := mkCpu 0 0 0 0 31 0 false false 0 [].

Definition idle_example : cpu := mkCpu 0x2A 0x11 0 0 12 0 false false 0x7F [].

Definition top_bit_example : cpu := mkCpu 0 0 0 0x80 31 0 false false 0 [].

(** The state whose generator is the 32-bit value [x]. *)
Definition with_RAND (x : Z) : cpu :=
  mkCpu (x mod 256) (x / 256 mod 256) (x / 65536 mod 256) (x / 16777216)
        0 0 false false 0 [].

(** The value the regeneration step leaves in place. *)
Definition fixed_point : Z := 0x55555E6E.

(** A state whose generator holds [fixed_point]. *)
Definition stuck_example : cpu := mkCpu 0x6E 0x5E 0x55 0x55 0 0 false false 0 [].

(** Two states the handler cannot tell apart: they agree on RAND,
    FRAME_CTR, OCR0A and the log. *)
Definition same_inputs (s1 s2 : cpu) : Prop :=
  r20 s1 = r20 s2 /\ r21 s1 = r21 s2 /\ r22 s1 = r22 s2 /\ r23 s1 = r23 s2 /\
  r24 s1 = r24 s2 /\ OCR0A s1 = OCR0A s2 /\ events s1 = events s2.

(** [commit_example] with other scratch and flags; a frame counter
    outside 0..31. *)
Definition scratch_example : cpu := mkCpu 5 0 0 0 30 0xA7 true true 0 [].

Definition wild_counter_example : cpu := mkCpu 1 2 3 4 0xFF 0 false false 0 [].

(** An accepted low byte (0b00100110) right after checkpoint 8; the
    state right after a commit of 0x5F. *)
Definition accepted_example : cpu := mkCpu 0x26 0 0 0 8 0 false false 0 [].

Definition after_commit_example : cpu :=
  mkCpu 5 0 0 0 31 0x5F false false 0x5F [EvWrite 0x5F].

(** [commit_example] with the three high bits of the low byte set. *)
Definition high_bits_example : cpu := mkCpu 0xE5 0 0 0 30 0 false false 0 [].

(** How many of the values 0 .. [n - 1] satisfy [P]. *)
Fixpoint how_many (P : Z -> bool) (n : nat) : Z :=
  match n with
  | O => 0
  | S k => (if P (Z.of_nat k) then 1 else 0) + how_many P k
  end.

(** The rejection test of lines 125-127 on a generator value. *)
Definition accepted (x : Z) : bool := negb (Z.land x 12 =? 0).

(** The generator value a cycle ends with: the first of the next three
    values that passes the test, else the fourth. *)
Definition cycle_pick (x : Z) : Z :=
  let x1 := regen x in
  if accepted x1 then x1 else
  let x2 := regen x1 in
  if accepted x2 then x2 else
  let x3 := regen x2 in
  if accepted x3 then x3 else regen x3.

(** The state the handler is entered with at the eighth tick after
    power-on: the generator is still 0 and the counter is about to reach
    checkpoint 8. *)
Definition first_checkpoint_example : cpu := mkCpu 0 0 0 0 7 7 true false 0 [].

(** A generator value on a cycle of 15 steps. *)
Definition short_cycle_example : Z := 0x05B9F420.

(** ** Bytes *)

Lemma below_sound (P : Z -> bool) (n : nat) :
  below P n = true -> forall v, 0 <= v < Z.of_nat n -> P v = true.
Proof.
  induction n as [|k IH]; intros Hb v Hv.
  - simpl in Hv. lia.
  - cbn [below] in Hb. apply andb_true_iff in Hb as [Hk Hrest].
    destruct (Z.eq_dec v (Z.of_nat k)) as [->|Hne]; [exact Hk|].
    apply IH; [exact Hrest|lia].
Qed.

Lemma byte_forall (P : Z -> bool) :
  below P 256 = true -> forall v, is_byte v -> P v = true.
Proof.
  intros Hb v Hv. apply (below_sound P 256 Hb). exact Hv.
Qed.

(** Solves [forall v, is_byte v -> Q v] for a decidable, closed [Q]
    given as a boolean test. *)
Ltac by_bytes test :=
  let v := fresh "v" in
  let Hv := fresh "Hv" in
  let H := fresh "H" in
  intros v Hv;
  pose proof (byte_forall test ltac:(vm_compute; reflexivity) v Hv) as H;
  cbv beta in H.

Lemma ror_byte (c : bool) (v : Z) :
  is_byte v ->
  Z.lor (if c then 128 else 0) (Z.shiftr v 1) = (if c then 128 else 0) + v / 2.
Proof.
  revert v. destruct c.
  - by_bytes (fun v => Z.lor 128 (Z.shiftr v 1) =? 128 + v / 2).
    now apply Z.eqb_eq.
  - by_bytes (fun v => Z.lor 0 (Z.shiftr v 1) =? 0 + v / 2).
    now apply Z.eqb_eq.
Qed.

Lemma com_byte (v : Z) : is_byte v -> 255 - v = Z.lxor v 0xFF.
Proof.
  revert v. by_bytes (fun v => 255 - v =? Z.lxor v 0xFF). now apply Z.eqb_eq.
Qed.

Lemma lxor_bound (k a b : Z) :
  0 <= k -> 0 <= a < 2 ^ k -> 0 <= b < 2 ^ k -> 0 <= Z.lxor a b < 2 ^ k.
Proof.
  intros Hk Ha Hb.
  assert (Hn : 0 <= Z.lxor a b) by (apply Z.lxor_nonneg; lia).
  split; [exact Hn|].
  assert (Hp : 0 < 2 ^ k) by (apply Z.pow_pos_nonneg; lia).
  destruct (Z.eq_dec (Z.lxor a b) 0) as [->|Hz]; [lia|].
  destruct (Z.eq_dec k 0) as [->|Hk0].
  { change (2 ^ 0) with 1 in *. replace a with 0 in Hz by lia.
    replace b with 0 in Hz by lia. now elim Hz. }
  apply Z.log2_lt_pow2; [lia|].
  eapply Z.le_lt_trans; [apply Z.log2_lxor; lia|].
  apply Z.max_lub_lt.
  - destruct (Z.eq_dec a 0) as [->|]; [simpl; lia|]. apply Z.log2_lt_pow2; lia.
  - destruct (Z.eq_dec b 0) as [->|]; [simpl; lia|]. apply Z.log2_lt_pow2; lia.
Qed.

Lemma lxor_const_byte (k v : Z) : is_byte k -> is_byte v -> is_byte (Z.lxor v k).
Proof.
  intros Hk Hv. unfold is_byte in *. change 256 with (2 ^ 8) in *.
  apply lxor_bound; lia.
Qed.

Lemma testbit_high (k x n : Z) : 0 <= x < 2 ^ k -> k <= n -> Z.testbit x n = false.
Proof.
  intros Hx Hn.
  destruct (Z.eq_dec x 0) as [->|Hz]; [apply Z.bits_0|].
  apply Z.bits_above_log2; [lia|].
  destruct (Z.le_gt_cases 0 k) as [Hk|Hk].
  - assert (Z.log2 x < k) by (apply Z.log2_lt_pow2; lia). lia.
  - rewrite Z.pow_neg_r in Hx by lia. lia.
Qed.

Lemma testbit0_odd (v : Z) : Z.testbit v 0 = Z.odd v.
Proof. apply Z.bit0_odd. Qed.

(** Bits of a value given as a low part below [2^k] and a high part. *)
Lemma testbit_glue (k a x n : Z) :
  0 <= k -> 0 <= a < 2 ^ k -> 0 <= n ->
  Z.testbit (a + 2 ^ k * x) n =
  if n <? k then Z.testbit a n else Z.testbit x (n - k).
Proof.
  intros Hk Ha Hn.
  assert (Hpos : 0 < 2 ^ k) by (apply Z.pow_pos_nonneg; lia).
  destruct (Z.ltb_spec n k) as [Hlt|Hge].
  - rewrite <- (Z.mod_pow2_bits_low (a + 2 ^ k * x) k n) by lia.
    replace ((a + 2 ^ k * x) mod 2 ^ k) with a; [reflexivity|].
    apply (Z.mod_unique_pos _ _ x); [exact Ha|lia].
  - replace n with ((n - k) + k) at 1 by lia.
    rewrite <- Z.div_pow2_bits by lia.
    replace ((a + 2 ^ k * x) / 2 ^ k) with x; [reflexivity|].
    apply (Z.div_unique_pos _ _ x a); [exact Ha|lia].
Qed.

Lemma lxor_glue (k a b x y : Z) :
  0 <= k -> 0 <= a < 2 ^ k -> 0 <= b < 2 ^ k ->
  0 <= Z.lxor a b < 2 ^ k ->
  Z.lxor (a + 2 ^ k * x) (b + 2 ^ k * y) = Z.lxor a b + 2 ^ k * Z.lxor x y.
Proof.
  intros Hk Ha Hb Hab. apply Z.bits_inj'. intros n Hn.
  rewrite Z.lxor_spec, !testbit_glue by assumption.
  destruct (n <? k); now rewrite Z.lxor_spec.
Qed.

(** ** What each block does *)

Ltac run_asm :=
  cbv beta iota zeta delta
    [TIM0_OVF_vect L_NEW_RAND L_NEW_PWM L_SET_PWM L_RETI
     inc andi ori mov ldi tst lsr ror eor com cpi swap out_OCR0A
     breq brne sbrc result set get setC setZ emit
     r20 r21 r22 r23 r24 r31 flagC flagZ OCR0A events
     RAND FRAME_CTR wf].

(** The block at [.LNEW_PWM] touches neither RAND nor FRAME_CTR; at frame
    0x1F it writes [pwm_of r20] to OCR0A, otherwise it writes nothing. *)
Lemma NEW_PWM_effect (s : cpu) :
  let s' := L_NEW_PWM s in
  r20 s' = r20 s /\ r21 s' = r21 s /\ r22 s' = r22 s /\ r23 s' = r23 s /\
  r24 s' = r24 s /\
  events s' = (if r24 s =? 0x1F then [EvWrite (pwm_of (r20 s))] else []) ++ events s /\
  OCR0A s' = (if r24 s =? 0x1F then pwm_of (r20 s) else OCR0A s).
Proof.
  destruct s as [a0 a1 a2 a3 c t fc fz o ev].
  run_asm. unfold pwm_of.
  destruct (c =? 31); cbv beta iota delta [negb].
  - destruct (Z.testbit a0 4); run_asm; repeat split; reflexivity.
  - repeat split; reflexivity.
Qed.

(** The four shifts of lines 131-134 are one 32-bit shift. *)
Lemma shift_bytes (a0 a1 a2 a3 : Z) :
  is_byte a0 -> is_byte a1 -> is_byte a2 -> is_byte a3 ->
  let b3 := Z.shiftr a3 1 in
  let b2 := Z.lor (if Z.testbit a3 0 then 128 else 0) (Z.shiftr a2 1) in
  let b1 := Z.lor (if Z.testbit a2 0 then 128 else 0) (Z.shiftr a1 1) in
  let b0 := Z.lor (if Z.testbit a1 0 then 128 else 0) (Z.shiftr a0 1) in
  (is_byte b0 /\ is_byte b1 /\ is_byte b2 /\ is_byte b3) /\
  b0 + 256 * b1 + 65536 * b2 + 16777216 * b3 =
  Z.shiftr (a0 + 256 * a1 + 65536 * a2 + 16777216 * a3) 1.
Proof.
  intros H0 H1 H2 H3. cbv zeta.
  rewrite !ror_byte by assumption.
  rewrite !Z.shiftr_div_pow2 by lia. change (2 ^ 1) with 2.
  rewrite !testbit0_odd.
  assert (Hodd : forall a, (if Z.odd a then 128 else 0) = 128 * (a mod 2)).
  { intros a. rewrite Zmod_odd. destruct (Z.odd a); reflexivity. }
  rewrite !Hodd. unfold is_byte in *.
  repeat split; Z.div_mod_to_equations; lia.
Qed.

(** The byte-wise feedback of lines 139-147 is one 32-bit exclusive or
    with [LFSR_FEEDBACK_TERM]. *)
Lemma xor_bytes (b0 b1 b2 b3 : Z) :
  is_byte b0 -> is_byte b1 -> is_byte b2 -> is_byte b3 ->
  let c0 := Z.lxor b0 0x59 in
  let c1 := Z.lxor b1 0xF1 in
  let c2 := 255 - b2 in
  let c3 := Z.lxor b3 0x7F in
  (is_byte c0 /\ is_byte c1 /\ is_byte c2 /\ is_byte c3) /\
  c0 + 256 * c1 + 65536 * c2 + 16777216 * c3 =
  Z.lxor (b0 + 256 * b1 + 65536 * b2 + 16777216 * b3) LFSR_FEEDBACK_TERM.
Proof.
  intros H0 H1 H2 H3. cbv zeta.
  rewrite (com_byte b2 H2).
  assert (K0 : is_byte 0x59) by (unfold is_byte; lia).
  assert (K1 : is_byte 0xF1) by (unfold is_byte; lia).
  assert (K2 : is_byte 0xFF) by (unfold is_byte; lia).
  assert (K3 : is_byte 0x7F) by (unfold is_byte; lia).
  pose proof (lxor_const_byte _ _ K0 H0) as X0.
  pose proof (lxor_const_byte _ _ K1 H1) as X1.
  pose proof (lxor_const_byte _ _ K2 H2) as X2.
  pose proof (lxor_const_byte _ _ K3 H3) as X3.
  split; [repeat split; apply X0 || apply X1 || apply X2 || apply X3|].
  replace (b0 + 256 * b1 + 65536 * b2 + 16777216 * b3)
    with (b0 + 2 ^ 8 * (b1 + 2 ^ 8 * (b2 + 2 ^ 8 * b3))) by lia.
  replace LFSR_FEEDBACK_TERM
    with (0x59 + 2 ^ 8 * (0xF1 + 2 ^ 8 * (0xFF + 2 ^ 8 * 0x7F))) by reflexivity.
  unfold is_byte in *. change 256 with (2 ^ 8) in *.
  rewrite !lxor_glue by lia. lia.
Qed.

(** The registers and flags the block at [.LNEW_RAND] hands to
    [.LNEW_PWM]. *)
Lemma NEW_RAND_unfold (a0 a1 a2 a3 c t : Z) (fc fz : bool) (o : Z) (ev : list event) :
  let b3 := Z.shiftr a3 1 in
  let b2 := Z.lor (if Z.testbit a3 0 then 128 else 0) (Z.shiftr a2 1) in
  let b1 := Z.lor (if Z.testbit a2 0 then 128 else 0) (Z.shiftr a1 1) in
  let b0 := Z.lor (if Z.testbit a1 0 then 128 else 0) (Z.shiftr a0 1) in
  L_NEW_RAND (mkCpu a0 a1 a2 a3 c t fc fz o ev) =
  L_NEW_PWM
    (if Z.testbit a0 0
     then mkCpu b0 b1 b2 b3 c a0 true (b0 =? 0) o (EvRegen :: ev)
     else mkCpu (Z.lxor b0 0x59) (Z.lxor b1 0xF1) (255 - b2) (Z.lxor b3 0x7F)
                c 0x7F true (Z.lxor b3 0x7F =? 0) o (EvRegen :: ev)).
Proof.
  cbv beta iota zeta delta
    [L_NEW_RAND mov ldi lsr ror eor com sbrc result set get setC setZ emit
     r20 r21 r22 r23 r24 r31 flagC flagZ OCR0A events].
  destruct (Z.testbit a0 0); reflexivity.
Qed.

(** The block at [.LNEW_RAND]: RAND becomes [regen RAND], then the block
    at [.LNEW_PWM] runs on the new value. *)
Lemma NEW_RAND_effect (s : cpu) :
  wf s ->
  let s' := L_NEW_RAND s in
  (is_byte (r20 s') /\ is_byte (r21 s') /\ is_byte (r22 s') /\ is_byte (r23 s')) /\
  RAND s' = regen (RAND s) /\
  r24 s' = r24 s /\
  events s' =
    (if r24 s =? 0x1F then [EvWrite (pwm_of (r20 s'))] else []) ++ EvRegen :: events s /\
  OCR0A s' = (if r24 s =? 0x1F then pwm_of (r20 s') else OCR0A s).
Proof.
  destruct s as [a0 a1 a2 a3 c t fc fz o ev].
  intros (H0 & H1 & H2 & H3 & _). cbn [r20 r21 r22 r23] in H0, H1, H2, H3.
  cbv zeta.
  pose proof (shift_bytes a0 a1 a2 a3 H0 H1 H2 H3) as Hs. cbv zeta in Hs.
  destruct Hs as ((B0 & B1 & B2 & B3) & Hshift).
  assert (Hbit : Z.testbit (RAND (mkCpu a0 a1 a2 a3 c t fc fz o ev)) 0 = Z.testbit a0 0).
  { unfold RAND. cbn [r20 r21 r22 r23].
    replace (a0 + 256 * a1 + 65536 * a2 + 16777216 * a3)
      with (a0 + 2 ^ 8 * (a1 + 256 * a2 + 65536 * a3)) by lia.
    rewrite testbit_glue by (unfold is_byte in H0; lia). reflexivity. }
  unfold regen. rewrite Hbit. clear Hbit.
  rewrite NEW_RAND_unfold. cbv zeta.
  match goal with |- context [L_NEW_PWM ?st] =>
    pose proof (NEW_PWM_effect st) as Hp end.
  cbv zeta in Hp. destruct Hp as (E0 & E1 & E2 & E3 & E4 & Eev & Eo).
  rewrite Eev, Eo. unfold RAND. rewrite E0, E1, E2, E3, E4.
  clear E0 E1 E2 E3 E4 Eev Eo.
  destruct (Z.testbit a0 0) eqn:Hb; cbn [r20 r21 r22 r23 r24 events OCR0A].
  - repeat split; try reflexivity; try exact Hshift;
      (apply B0 || apply B1 || apply B2 || apply B3).
  - pose proof (xor_bytes _ _ _ _ B0 B1 B2 B3) as Hx. cbv zeta in Hx.
    destruct Hx as ((C0 & C1 & C2 & C3) & Hxor).
    rewrite <- Hshift.
    repeat split; try reflexivity; try exact Hxor;
      (apply C0 || apply C1 || apply C2 || apply C3).
Qed.

(** ** One tick *)

Lemma TIM0_unfold (a0 a1 a2 a3 c t : Z) (fc fz : bool) (o : Z) (ev : list event) :
  let n := Z.land ((c + 1) mod 256) 0x1F in
  TIM0_OVF_vect (mkCpu a0 a1 a2 a3 c t fc fz o ev) =
  if n =? 0 then L_NEW_RAND (mkCpu a0 a1 a2 a3 n n fc true o ev)
  else if Z.land n 7 =? 0 then
    if Z.land a0 12 =? 0
    then L_NEW_RAND (mkCpu a0 a1 a2 a3 n (Z.land a0 12) fc true o ev)
    else L_NEW_PWM (mkCpu a0 a1 a2 a3 n (Z.land a0 12) fc false o ev)
  else L_NEW_PWM (mkCpu a0 a1 a2 a3 n (Z.land n 7) fc false o ev).
Proof.
  cbv beta iota zeta delta
    [TIM0_OVF_vect inc andi mov tst breq brne result set get setC setZ
     r20 r21 r22 r23 r24 r31 flagC flagZ OCR0A events].
  rewrite Z.land_diag.
  destruct (Z.land ((c + 1) mod 256) 31 =? 0); [reflexivity|].
  destruct (Z.land (Z.land ((c + 1) mod 256) 31) 7 =? 0); [|reflexivity].
  destruct (Z.land a0 12 =? 0); reflexivity.
Qed.

Lemma land_31 (x : Z) : Z.land x 0x1F = x mod 32.
Proof. apply (Z.land_ones x 5). lia. Qed.

Lemma land_7 (x : Z) : Z.land x 7 = x mod 8.
Proof. apply (Z.land_ones x 3). lia. Qed.

Lemma next_ctr_mod (s : cpu) : next_ctr s = (r24 s + 1) mod 32.
Proof.
  unfold next_ctr. rewrite land_31.
  Z.div_mod_to_equations. lia.
Qed.

Lemma next_ctr_range (s : cpu) : 0 <= next_ctr s < 32.
Proof. rewrite next_ctr_mod. apply Z.mod_pos_bound. lia. Qed.

Ltac solve_byte :=
  match goal with
  | H : is_byte ?x |- _ <= ?x => apply H
  | H : is_byte ?x |- ?x < _ => apply H
  | H : is_byte ?x |- is_byte ?x => exact H
  end.

(** What one run of the handler does to the 32-bit generator, the frame
    counter, the compare register and the event log. *)
Lemma tick_effect (s : cpu) :
  wf s ->
  let s' := TIM0_OVF_vect s in
  wf s' /\
  r24 s' = next_ctr s /\
  RAND s' = (if regenerates s then regen (RAND s) else RAND s) /\
  (regenerates s = false -> r20 s' = r20 s) /\
  events s' =
    (if next_ctr s =? 0x1F then [EvWrite (pwm_of (r20 s'))] else []) ++
    (if regenerates s then [EvRegen] else []) ++ events s /\
  OCR0A s' = (if next_ctr s =? 0x1F then pwm_of (r20 s') else OCR0A s).
Proof.
  intros Hwf. pose proof (next_ctr_range s) as Hn.
  destruct s as [a0 a1 a2 a3 c t fc fz o ev].
  destruct Hwf as (H0 & H1 & H2 & H3 & H4).
  cbn [r20 r21 r22 r23 r24] in H0, H1, H2, H3, H4.
  cbv zeta. rewrite TIM0_unfold. cbv zeta.
  unfold regenerates, next_ctr in *. cbn [r20 r24] in *.
  set (n := Z.land ((c + 1) mod 256) 31) in *.
  assert (Hnb : is_byte n) by (unfold is_byte; lia).
  destruct (n =? 0) eqn:En; cbn [orb andb].
  - match goal with |- context [L_NEW_RAND ?st] =>
      pose proof (NEW_RAND_effect st) as Hr end.
    cbv zeta in Hr. cbn [r20 r21 r22 r23 r24 events OCR0A] in Hr.
    destruct Hr as ((B0 & B1 & B2 & B3) & HR & H24 & Hev & Ho).
    { unfold wf. cbn [r20 r21 r22 r23 r24]. tauto. }
    unfold wf. rewrite H24, HR, Hev, Ho.
    repeat split; try reflexivity; try solve_byte; try discriminate.
  - destruct (Z.land n 7 =? 0) eqn:E7; cbn [andb].
    + destruct (Z.land a0 12 =? 0) eqn:E12.
      * match goal with |- context [L_NEW_RAND ?st] =>
          pose proof (NEW_RAND_effect st) as Hr end.
        cbv zeta in Hr. cbn [r20 r21 r22 r23 r24 events OCR0A] in Hr.
        destruct Hr as ((B0 & B1 & B2 & B3) & HR & H24 & Hev & Ho).
        { unfold wf. cbn [r20 r21 r22 r23 r24]. tauto. }
        unfold wf. rewrite H24, HR, Hev, Ho.
        repeat split; try reflexivity; try solve_byte; try discriminate.
      * match goal with |- context [L_NEW_PWM ?st] =>
          pose proof (NEW_PWM_effect st) as Hp end.
        cbv zeta in Hp. cbn [r20 r21 r22 r23 r24 events OCR0A] in Hp.
        destruct Hp as (E0 & E1 & E2 & E3 & E4 & Eev & Eo).
        unfold wf, RAND. rewrite E0, E1, E2, E3, E4, Eev, Eo.
        cbn [r20 r21 r22 r23 r24 events OCR0A].
        repeat split; try reflexivity; try solve_byte; try discriminate.
    + match goal with |- context [L_NEW_PWM ?st] =>
        pose proof (NEW_PWM_effect st) as Hp end.
      cbv zeta in Hp. cbn [r20 r21 r22 r23 r24 events OCR0A] in Hp.
      destruct Hp as (E0 & E1 & E2 & E3 & E4 & Eev & Eo).
      unfold wf, RAND. rewrite E0, E1, E2, E3, E4, Eev, Eo.
      cbn [r20 r21 r22 r23 r24 events OCR0A].
      repeat split; try reflexivity; try solve_byte; try discriminate.
Qed.

(** ** The generator as a function on 32-bit values *)

Lemma regen_range (x : Z) : 0 <= x < 2 ^ 32 -> 0 <= regen x < 2 ^ 31.
Proof.
  intros Hx. unfold regen.
  assert (Hs : 0 <= Z.shiftr x 1 < 2 ^ 31).
  { rewrite Z.shiftr_div_pow2 by lia. change (2 ^ 1) with 2.
    change (2 ^ 32) with 4294967296 in Hx. change (2 ^ 31) with 2147483648.
    Z.div_mod_to_equations. lia. }
  destruct (Z.testbit x 0); [exact Hs|].
  apply lxor_bound; [lia|exact Hs|]. unfold LFSR_FEEDBACK_TERM. lia.
Qed.

Lemma orbit_succ (x : Z) (n : N) : orbit x (N.succ n) = regen (orbit x n).
Proof. unfold orbit. apply N.iter_succ. Qed.

Lemma orbit_range (n : N) : 0 <= orbit 0 n < 2 ^ 31.
Proof.
  induction n as [|n IH] using N.peano_ind.
  - unfold orbit. simpl. lia.
  - rewrite orbit_succ. apply regen_range.
    change (2 ^ 32) with 4294967296. change (2 ^ 31) with 2147483648 in IH. lia.
Qed.

(** Below [2^31] the step can be undone: bit 30 of the result tells the
    bit that was shifted out. *)
Lemma regen_out_bit (x : Z) :
  0 <= x < 2 ^ 31 -> Z.testbit (regen x) 30 = negb (Z.testbit x 0).
Proof.
  intros Hx. unfold regen.
  assert (Hs : Z.testbit (Z.shiftr x 1) 30 = false).
  { rewrite Z.shiftr_spec by lia. apply (testbit_high 31); [exact Hx|lia]. }
  destruct (Z.testbit x 0).
  - exact Hs.
  - rewrite Z.lxor_spec, Hs. reflexivity.
Qed.

Lemma regen_injective (x y : Z) :
  0 <= x < 2 ^ 31 -> 0 <= y < 2 ^ 31 -> regen x = regen y -> x = y.
Proof.
  intros Hx Hy E.
  assert (Hb : Z.testbit x 0 = Z.testbit y 0).
  { apply (f_equal (fun v => Z.testbit v 30)) in E.
    rewrite !regen_out_bit in E by assumption.
    destruct (Z.testbit x 0), (Z.testbit y 0); simpl in E; congruence. }
  assert (Hs : Z.shiftr x 1 = Z.shiftr y 1).
  { unfold regen in E. rewrite <- Hb in E.
    destruct (Z.testbit x 0); [exact E|].
    apply (f_equal (fun v => Z.lxor v LFSR_FEEDBACK_TERM)) in E.
    now rewrite !Z.lxor_assoc, !Z.lxor_nilpotent, !Z.lxor_0_r in E. }
  rewrite !Z.shiftr_div_pow2 in Hs by lia. change (2 ^ 1) with 2 in Hs.
  rewrite !testbit0_odd in Hb.
  pose proof (Zmod_odd x) as Mx. pose proof (Zmod_odd y) as My.
  rewrite Hb in Mx. rewrite <- My in Mx.
  Z.div_mod_to_equations. lia.
Qed.

(** ** The orbit of the power-on value *)

Lemma walk_succ (start : Z) (n : N) :
  walk start (N.succ n) = walk_step start (walk start n).
Proof. unfold walk. apply N.iter_succ. Qed.

Lemma walk_fst (start : Z) (n : N) : fst (walk start n) = orbit start n.
Proof.
  induction n as [|n IH] using N.peano_ind; [reflexivity|].
  rewrite walk_succ, orbit_succ. unfold walk_step. cbn [fst]. now rewrite IH.
Qed.

Lemma walk_no_return (start : Z) (n : N) :
  snd (walk start n) = false ->
  forall k, (0 < k <= n)%N -> orbit start k <> start.
Proof.
  induction n as [|n IH] using N.peano_ind; intros Hw k Hk; [lia|].
  rewrite walk_succ in Hw. unfold walk_step in Hw. cbn [snd] in Hw.
  apply orb_false_iff in Hw as [Hprev Hlast].
  destruct (N.eq_dec k (N.succ n)) as [->|Hne].
  - rewrite orbit_succ, <- walk_fst. now apply Z.eqb_neq.
  - apply IH; [exact Hprev|lia].
Qed.

Lemma orbit_closes : orbit 0 orbit_length = 0.
Proof. vm_compute. reflexivity. Qed.

Lemma walk_clean : snd (walk 0 (N.pred orbit_length)) = false.
Proof. vm_compute. reflexivity. Qed.

Lemma orbit_not_before (k : N) :
  (0 < k < orbit_length)%N -> orbit 0 k <> 0.
Proof.
  intros Hk. apply (walk_no_return 0 (N.pred orbit_length)).
  - exact walk_clean.
  - unfold orbit_length in *. lia.
Qed.

(** ** Runs of ticks *)

Lemma count_regen_app (l1 l2 : list event) :
  count_regen (l1 ++ l2) = count_regen l1 + count_regen l2.
Proof.
  induction l1 as [|[|v] l1 IH]; cbn [app count_regen]; lia.
Qed.

Lemma count_write_app (l1 l2 : list event) :
  count_write (l1 ++ l2) = count_write l1 + count_write l2.
Proof.
  induction l1 as [|[|v] l1 IH]; cbn [app count_write]; lia.
Qed.

Lemma ticks_S (n : nat) (s : cpu) : ticks (S n) s = TIM0_OVF_vect (ticks n s).
Proof. reflexivity. Qed.

Lemma ticks_wf (n : nat) (s : cpu) : wf s -> wf (ticks n s).
Proof.
  intros Hwf. induction n as [|n IH]; [exact Hwf|].
  rewrite ticks_S. apply (tick_effect _ IH).
Qed.

Lemma ticks_ctr (n : nat) (s : cpu) :
  wf s -> (0 < n)%nat -> r24 (ticks n s) = (r24 s + Z.of_nat n) mod 32.
Proof.
  intros Hwf Hn. induction n as [|n IH]; [lia|].
  rewrite ticks_S.
  pose proof (tick_effect _ (ticks_wf n s Hwf)) as (_ & Hc & _). cbv zeta in Hc.
  rewrite Hc, next_ctr_mod.
  destruct n as [|n].
  - reflexivity.
  - rewrite IH by lia. rewrite Nat2Z.inj_succ.
    rewrite Z.add_mod_idemp_l by lia. f_equal. lia.
Qed.

Lemma ticks_next_ctr (n : nat) (s : cpu) :
  wf s -> next_ctr (ticks n s) = (r24 s + Z.of_nat (S n)) mod 32.
Proof.
  intros Hwf. rewrite next_ctr_mod.
  destruct n as [|n]; [reflexivity|].
  rewrite ticks_ctr by (assumption || lia).
  rewrite Z.add_mod_idemp_l by lia. f_equal. lia.
Qed.

Lemma regenerates_bounds (s : cpu) :
  (if next_ctr s =? 0 then 1 else 0) <= (if regenerates s then 1 else 0) /\
  (if regenerates s then 1 else 0) <= (if next_ctr s mod 8 =? 0 then 1 else 0).
Proof.
  unfold regenerates. rewrite land_7.
  destruct (next_ctr s =? 0) eqn:E0.
  - apply Z.eqb_eq in E0. rewrite E0. cbn. lia.
  - cbn [orb]. destruct (next_ctr s mod 8 =? 0); cbn [andb].
    + destruct (Z.land (r20 s) 12 =? 0); lia.
    + lia.
Qed.

(** Writes and regenerations over a run of ticks, by the frames passed. *)
Lemma ticks_counts (n : nat) (s : cpu) :
  wf s ->
  let c := r24 s in
  let s' := ticks n s in
  count_write (events s') = count_write (events s) + frames (fun f => f =? 0x1F) c n /\
  count_regen (events s) + frames (fun f => f =? 0) c n <= count_regen (events s') /\
  count_regen (events s') <= count_regen (events s) + frames (fun f => f mod 8 =? 0) c n.
Proof.
  intros Hwf. cbv zeta. induction n as [|n IH]; [cbn; lia|].
  rewrite ticks_S. cbn [frames].
  pose proof (tick_effect _ (ticks_wf n s Hwf)) as (_ & _ & _ & _ & Hev & _).
  cbv zeta in Hev. rewrite Hev. clear Hev.
  rewrite !count_write_app, !count_regen_app.
  pose proof (regenerates_bounds (ticks n s)) as [Hlo Hhi].
  rewrite (ticks_next_ctr n s Hwf) in *.
  destruct IH as (IHw & IHlo & IHhi).
  assert (Hw1 : forall (b : bool) v, count_write (if b then [EvWrite v] else []) = if b then 1 else 0)
    by (intros [] ?; reflexivity).
  assert (Hw2 : forall b : bool, count_write (if b then [EvRegen] else []) = 0)
    by (intros []; reflexivity).
  assert (Hr1 : forall (b : bool) v, count_regen (if b then [EvWrite v] else []) = 0)
    by (intros [] ?; reflexivity).
  assert (Hr2 : forall b : bool, count_regen (if b then [EvRegen] else []) = if b then 1 else 0)
    by (intros []; reflexivity).
  rewrite Hw1, Hw2, Hr1, Hr2. lia.
Qed.

(** ** Facts about single frames *)

Lemma regenerates_iff (s : cpu) :
  wf s ->
  let c := next_ctr s in
  regenerates s = true <->
  (c = 0 \/ ((c = 8 \/ c = 16 \/ c = 24) /\
             Z.testbit (r20 s) 2 = false /\ Z.testbit (r20 s) 3 = false)).
Proof.
  intros (H0 & _). cbv zeta. pose proof (next_ctr_range s) as Hc.
  unfold regenerates. rewrite land_7.
  assert (Hbits : (Z.land (r20 s) 12 =? 0) =
                  negb (Z.testbit (r20 s) 2) && negb (Z.testbit (r20 s) 3)).
  { revert H0. generalize (r20 s).
    by_bytes (fun v => Bool.eqb (Z.land v 12 =? 0)
                                (negb (Z.testbit v 2) && negb (Z.testbit v 3))).
    now apply eqb_prop in H. }
  rewrite Hbits, orb_true_iff, !andb_true_iff, !negb_true_iff, !Z.eqb_eq.
  split.
  - intros [E|(E & B)]; [now left|].
    destruct (Z.eq_dec (next_ctr s) 0) as [Ez|Ez]; [now left|right].
    split; [|exact B]. Z.div_mod_to_equations. lia.
  - intros [E|(E & B)]; [now left|right]. split; [|exact B].
    destruct E as [-> | [-> | ->]]; reflexivity.
Qed.

Lemma commit_frame_keeps (s : cpu) : next_ctr s = 0x1F -> regenerates s = false.
Proof. intros E. unfold regenerates. rewrite E. reflexivity. Qed.

Lemma pwm_of_facts (lo : Z) :
  is_byte lo ->
  Z.land (pwm_of lo) 0x0F = 0x0F /\ 0x0F <= pwm_of lo <= 0xFF /\
  (Z.testbit lo 4 = true -> pwm_of lo = 0xFF) /\
  (Z.testbit lo 4 = false ->
   pwm_of lo = 16 * Z.land lo 0x0F + 0x0F /\
   Z.shiftr (pwm_of lo) 4 = Z.land lo 0x0F /\ 0 <= Z.land lo 0x0F <= 0x0F).
Proof.
  revert lo.
  by_bytes (fun v =>
    (Z.land (pwm_of v) 15 =? 15) && (15 <=? pwm_of v) && (pwm_of v <=? 255) &&
    (if Z.testbit v 4 then pwm_of v =? 255
     else (pwm_of v =? 16 * Z.land v 15 + 15) &&
          (Z.shiftr (pwm_of v) 4 =? Z.land v 15) &&
          (0 <=? Z.land v 15) && (Z.land v 15 <=? 15))).
  apply andb_true_iff in H as [H H4]. apply andb_true_iff in H as [H H3].
  apply andb_true_iff in H as [H1 H2].
  apply Z.eqb_eq in H1. apply Z.leb_le in H2, H3.
  split; [exact H1|]. split; [lia|]. split.
  - intros E. rewrite E in H4. now apply Z.eqb_eq.
  - intros E. rewrite E in H4.
    apply andb_true_iff in H4 as [H4 H8]. apply andb_true_iff in H4 as [H4 H7].
    apply andb_true_iff in H4 as [H5 H6].
    apply Z.eqb_eq in H5, H6. apply Z.leb_le in H7, H8.
    repeat split; assumption.
Qed.

Lemma wf_RAND_range (s : cpu) : wf s -> 0 <= RAND s < 2 ^ 32.
Proof.
  intros (H0 & H1 & H2 & H3 & _). unfold RAND, is_byte in *.
  change (2 ^ 32) with 4294967296. lia.
Qed.

(** Every 32-bit value is the generator of a well-formed state. *)
Lemma RAND_onto (x : Z) :
  0 <= x < 2 ^ 32 -> wf (with_RAND x) /\ RAND (with_RAND x) = x.
Proof.
  intros Hx. change (2 ^ 32) with 4294967296 in Hx.
  unfold wf, is_byte, RAND, with_RAND. cbn [r20 r21 r22 r23 r24].
  repeat split; Z.div_mod_to_equations; lia.
Qed.

Lemma wf_power_on : wf power_on.
Proof. unfold wf, is_byte. cbn. lia. Qed.

(** Every generator value the handler can hold after power-on lies on
    the orbit of 0. *)
Lemma ticks_on_orbit (n : nat) : exists k : N, RAND (ticks n power_on) = orbit 0 k.
Proof.
  induction n as [|n (k & Hk)]; [exists 0%N; reflexivity|].
  rewrite ticks_S.
  pose proof (tick_effect _ (ticks_wf n _ wf_power_on)) as (_ & _ & HR & _).
  cbv zeta in HR. rewrite HR.
  destruct (regenerates (ticks n power_on)).
  - exists (N.succ k). now rewrite orbit_succ, Hk.
  - now exists k.
Qed.

Lemma orbit_no_fixed_point (n : N) : regen (orbit 0 n) <> orbit 0 n.
Proof.
  induction n as [|n IH] using N.peano_ind.
  - vm_compute. discriminate.
  - rewrite orbit_succ. intros E. apply IH.
    apply regen_injective in E; [exact E| |apply orbit_range].
    rewrite <- orbit_succ. apply orbit_range.
Qed.

Lemma frames_of_a_cycle (c : Z) :
  0 <= c < 32 ->
  frames (fun f => f =? 0x1F) c 32 = 1 /\
  frames (fun f => f =? 0) c 32 = 1 /\
  frames (fun f => f mod 8 =? 0) c 32 = 4.
Proof.
  intros Hc.
  pose proof (below_sound
    (fun c => (frames (fun f => f =? 0x1F) c 32 =? 1) &&
              (frames (fun f => f =? 0) c 32 =? 1) &&
              (frames (fun f => f mod 8 =? 0) c 32 =? 4))
    32 ltac:(vm_compute; reflexivity) c Hc) as H.
  cbv beta in H. apply andb_true_iff in H as [H H3].
  apply andb_true_iff in H as [H1 H2].
  apply Z.eqb_eq in H1, H2, H3. repeat split; assumption.
Qed.

(** ** Runs of ticks and the generator *)

Lemma ticks_add (a b : nat) (s : cpu) : ticks (a + b) s = ticks b (ticks a s).
Proof.
  induction b as [|b IH]; [now rewrite Nat.add_0_r|].
  now rewrite Nat.add_succ_r, !ticks_S, IH.
Qed.

(** The generator after a run is the initial one advanced by as many
    steps as the run logged regenerations. *)
Lemma run_follows_orbit (s : cpu) (n : nat) :
  wf s ->
  let d := count_regen (events (ticks n s)) - count_regen (events s) in
  0 <= d /\ RAND (ticks n s) = orbit (RAND s) (Z.to_N d).
Proof.
  intros Hwf. cbv zeta. induction n as [|n (IHd & IHR)].
  - cbn [ticks Nat.iter]. rewrite Z.sub_diag. split; [lia|reflexivity].
  - rewrite ticks_S.
    pose proof (tick_effect _ (ticks_wf n s Hwf)) as (_ & _ & HR & _ & Hev & _).
    rewrite HR, Hev, !count_regen_app.
    assert (Hr1 : forall (b : bool) v, count_regen (if b then [EvWrite v] else []) = 0)
      by (intros [] ?; reflexivity).
    rewrite Hr1. destruct (regenerates (ticks n s)); cbn [count_regen].
    + split; [lia|].
      replace (0 + (1 + 0 + count_regen (events (ticks n s))) - count_regen (events s))
        with (Z.succ (count_regen (events (ticks n s)) - count_regen (events s))) by lia.
      rewrite Z2N.inj_succ by exact IHd. rewrite orbit_succ, IHR. reflexivity.
    + split; [lia|].
      replace (0 + (0 + count_regen (events (ticks n s))) - count_regen (events s))
        with (count_regen (events (ticks n s)) - count_regen (events s)) by lia.
      exact IHR.
Qed.

(** OCR0A is left alone by a run that does not reach frame 31. *)
Lemma run_keeps_duty_cycle (s : cpu) (n : nat) :
  wf s -> 0 <= FRAME_CTR s < 32 -> Z.of_nat n <= (30 - FRAME_CTR s) mod 32 ->
  OCR0A (ticks n s) = OCR0A s /\
  count_write (events (ticks n s)) = count_write (events s).
Proof.
  unfold FRAME_CTR. intros Hwf Hc Hn. induction n as [|n IH].
  - split; reflexivity.
  - destruct IH as (IHo & IHw); [lia|].
    rewrite ticks_S. pose proof (ticks_wf n s Hwf) as Hwfn.
    pose proof (tick_effect _ Hwfn) as (_ & _ & _ & _ & Hev & Ho).
    pose proof (ticks_next_ctr n s Hwf) as Hnext.
    assert (Hne : (next_ctr (ticks n s) =? 31) = false).
    { apply Z.eqb_neq. rewrite Hnext. Z.div_mod_to_equations. lia. }
    rewrite Hne in Hev, Ho. rewrite Ho, Hev, !count_write_app.
    split; [exact IHo|].
    destruct (regenerates (ticks n s)); cbn [count_write]; lia.
Qed.

Lemma counter_in_range (n : nat) : 0 <= r24 (ticks n power_on) < 32.
Proof.
  destruct n as [|n]; [cbn; lia|].
  rewrite ticks_ctr by (apply wf_power_on || lia).
  apply Z.mod_pos_bound. lia.
Qed.

(** After power-on, a pass through [.LNEW_RAND] never leaves the
    generator as it was. *)
Lemma regeneration_moves (n : nat) :
  RAND (L_NEW_RAND (ticks n power_on)) <> RAND (ticks n power_on).
Proof.
  pose proof (NEW_RAND_effect _ (ticks_wf n _ wf_power_on)) as (_ & HR & _).
  rewrite HR. destruct (ticks_on_orbit n) as (k & ->). apply orbit_no_fixed_point.
Qed.

Lemma regenerating_tick_moves (n : nat) :
  regenerates (ticks n power_on) = true ->
  RAND (TIM0_OVF_vect (ticks n power_on)) <> RAND (ticks n power_on).
Proof.
  intros Hreg.
  pose proof (tick_effect _ (ticks_wf n _ wf_power_on)) as (_ & _ & HR & _).
  rewrite Hreg in HR. rewrite HR.
  destruct (ticks_on_orbit n) as (k & ->). apply orbit_no_fixed_point.
Qed.

(** Within any 32 ticks after power-on the generator changes. *)
Lemma generator_keeps_moving (n : nat) :
  exists k : nat, (k < 32)%nat /\
    RAND (ticks (S (n + k)) power_on) <> RAND (ticks (n + k) power_on).
Proof.
  pose proof (counter_in_range n) as Hc.
  set (c := r24 (ticks n power_on)) in *.
  exists (Z.to_nat (31 - c)). split; [lia|].
  rewrite ticks_S. apply regenerating_tick_moves.
  assert (H31 : r24 (ticks (n + Z.to_nat (31 - c)) power_on) = 31).
  { rewrite ticks_add.
    destruct (Z.to_nat (31 - c)) as [|m] eqn:Em.
    - change (ticks 0 (ticks n power_on)) with (ticks n power_on). fold c. lia.
    - rewrite ticks_ctr by (apply ticks_wf, wf_power_on || lia).
      fold c. rewrite <- Em. rewrite Z2Nat.id by lia.
      replace (c + (31 - c)) with 31 by lia. reflexivity. }
  unfold regenerates. rewrite next_ctr_mod, H31. reflexivity.
Qed.

(** ** The regeneration step *)

(** C1: the orbit of the all-zero state under the regeneration step is
    back at zero after 436905 steps and not before, far fewer than the
    2^32 - 1 steps of a maximal-length register. *)
Theorem orbit_of_zero_closes_early :
  orbit 0 436905 = 0 /\
  snd (walk 0 436904) = false /\
  (436905 < 2 ^ 32 - 1)%N.
Proof.
  split; [exact orbit_closes|]. split; [exact walk_clean|reflexivity].
Qed.

(** C2, as stated, fails on the power-on value: the handler applies the
    feedback term although the bit shifted out of 0 is 0. *)
Lemma regen_polarity_counterexample :
  RAND (L_NEW_RAND power_on) = 0x7FFFF159 /\
  regen_as_specified (RAND power_on) = 0 /\
  RAND (L_NEW_RAND power_on) <> regen_as_specified (RAND power_on).
Proof.
  split; [vm_compute; reflexivity|]. split; [vm_compute; reflexivity|].
  vm_compute. discriminate.
Qed.

(** C2, amended: one pass through [.LNEW_RAND] shifts the 32-bit
    generator right by one bit; with outBit the bit 0 before the shift,
    the shifted value is exclusive-ored with 0x7FFFF159 when outBit was 0
    and left as it is when outBit was 1.  This holds of every state
    whose generator is the 32-bit value x, and there is such a state. *)
Theorem regeneration_step (x : Z) :
  0 <= x < 2 ^ 32 ->
  let outBit := Z.testbit x 0 in
  let stepped :=
    if outBit then Z.shiftr x 1 else Z.lxor (Z.shiftr x 1) 0x7FFFF159 in
  (forall s, wf s -> RAND s = x -> RAND (L_NEW_RAND s) = stepped) /\
  RAND (L_NEW_RAND (with_RAND x)) = stepped.
Proof.
  intros Hx. cbv zeta.
  assert (Hall : forall s, wf s -> RAND s = x ->
            RAND (L_NEW_RAND s) =
            if Z.testbit x 0 then Z.shiftr x 1
            else Z.lxor (Z.shiftr x 1) 0x7FFFF159).
  { intros s Hwf <-.
    pose proof (NEW_RAND_effect s Hwf) as (_ & HR & _). exact HR. }
  split; [exact Hall|].
  destruct (RAND_onto x Hx) as (Hwf & HR). exact (Hall _ Hwf HR).
Qed.

Lemma regeneration_step_witness :
  0 <= 0 < 2 ^ 32 /\ RAND (L_NEW_RAND power_on) = 0x7FFFF159.
Proof.
  assert (Hx : 0 <= 0 < 2 ^ 32) by (split; [discriminate|reflexivity]).
  assert (Hwf : wf power_on) by (unfold wf, is_byte; cbn; lia).
  split; [exact Hx|].
  exact (proj1 (regeneration_step 0 Hx) power_on Hwf eq_refl).
Defined.

(** ** The commit frame *)

(** C3: at the commit frame the handler leaves the generator alone and
    writes one byte d to OCR0A; d is 0xFF when bit 4 of the generator's
    low byte is set, otherwise its high nibble is the low nibble of that
    byte and its low nibble is 0xF; the low byte 0b00000101 commits 0x5F. *)
Theorem commit_mapping (s : cpu) :
  wf s -> next_ctr s = 0x1F ->
  let s' := TIM0_OVF_vect s in
  let lo := r20 s' in
  lo = r20 s /\ RAND s' = RAND s /\
  exists d,
    events s' = EvWrite d :: events s /\ OCR0A s' = d /\
    (Z.testbit lo 4 = true -> d = 0xFF) /\
    (Z.testbit lo 4 = false ->
     Z.shiftr d 4 = Z.land lo 0x0F /\ Z.land d 0x0F = 0x0F) /\
    (lo = 5 -> d = 0x5F).
Proof.
  intros Hwf Hc. cbv zeta.
  pose proof (tick_effect s Hwf) as (Hwf' & _ & HR & Hlo & Hev & Ho).
  pose proof (commit_frame_keeps s Hc) as Hk.
  rewrite Hk in HR, Hev. rewrite Hc, Z.eqb_refl in Hev, Ho.
  rewrite app_nil_l in Hev. cbn [app] in Hev.
  specialize (Hlo Hk).
  split; [exact Hlo|]. split; [exact HR|].
  exists (pwm_of (r20 (TIM0_OVF_vect s))).
  destruct Hwf' as (B0 & _).
  pose proof (pwm_of_facts _ B0) as (F1 & F2 & F3 & F4).
  repeat split; try assumption.
  - apply F4. assumption.
  - intros E. rewrite E. reflexivity.
Qed.

Lemma commit_mapping_witness :
  wf commit_example /\ next_ctr commit_example = 0x1F /\
  exists d, events (TIM0_OVF_vect commit_example) = [EvWrite d] /\ d = 0x5F.
Proof.
  assert (Hwf : wf commit_example) by (unfold wf, is_byte; cbn; lia).
  assert (Hc : next_ctr commit_example = 0x1F) by reflexivity.
  split; [exact Hwf|]. split; [exact Hc|].
  destruct (commit_mapping commit_example Hwf Hc)
    as (_ & _ & d & Hev & _ & _ & _ & H5).
  exists d. split; [exact Hev|]. apply H5. reflexivity.
Defined.

(** C4, as stated, fails for the low byte 0x0F: bit 4 is clear and the
    byte committed is 0xFF. *)
Lemma commit_level_counterexample :
  next_ctr level_example = 0x1F /\
  Z.testbit (r20 level_example) 4 = false /\
  events (TIM0_OVF_vect level_example) = [EvWrite 0xFF] /\
  OCR0A (TIM0_OVF_vect level_example) = 0xFF.
Proof.
  repeat split.
Qed.

(** C4, amended: with bit 4 of the low byte clear, the byte committed at
    frame 31 is 16 * k + 15 for k the low nibble of the generator's low
    byte, one of the 16 evenly spaced levels 0x0F, 0x1F, ..., 0xFF; it is
    0xFF exactly when that nibble is 0xF. *)
Theorem commit_levels (s : cpu) :
  wf s -> next_ctr s = 0x1F -> Z.testbit (r20 s) 4 = false ->
  let s' := TIM0_OVF_vect s in
  let k := Z.land (r20 s) 0x0F in
  0 <= k <= 15 /\
  events s' = EvWrite (16 * k + 15) :: events s /\
  OCR0A s' = 16 * k + 15 /\
  (OCR0A s' = 0xFF <-> k = 0x0F).
Proof.
  intros Hwf Hc Hb. cbv zeta.
  pose proof (tick_effect s Hwf) as (_ & _ & _ & Hlo & Hev & Ho).
  pose proof (commit_frame_keeps s Hc) as Hk.
  rewrite Hk in Hev. rewrite Hc, Z.eqb_refl in Hev, Ho.
  rewrite app_nil_l in Hev. cbn [app] in Hev.
  rewrite (Hlo Hk) in Hev, Ho.
  destruct Hwf as (B0 & _).
  pose proof (pwm_of_facts _ B0) as (_ & _ & _ & F4).
  destruct (F4 Hb) as (E & _ & Hrange).
  rewrite E in Hev, Ho. rewrite Ho.
  repeat split; try assumption; try apply Hrange; lia.
Qed.

Lemma commit_levels_witness :
  wf level_example /\ next_ctr level_example = 0x1F /\
  Z.testbit (r20 level_example) 4 = false /\
  events (TIM0_OVF_vect level_example) = [EvWrite 0xFF].
Proof.
  assert (Hwf : wf level_example) by (unfold wf, is_byte; cbn; lia).
  split; [exact Hwf|]. split; [reflexivity|]. split; [reflexivity|].
  exact (proj1 (proj2 (commit_levels level_example Hwf eq_refl eq_refl))).
Defined.

(** ** The schedule *)

(** C5: a tick regenerates exactly when the incremented counter is 0, or
    is 8, 16 or 24 while bits 2 and 3 of the generator's low byte are
    both zero; otherwise the generator is left as it was. *)
Theorem regeneration_schedule (s : cpu) :
  wf s ->
  let c := next_ctr s in
  let s' := TIM0_OVF_vect s in
  let fires :=
    c = 0 \/ ((c = 8 \/ c = 16 \/ c = 24) /\
              Z.testbit (r20 s) 2 = false /\ Z.testbit (r20 s) 3 = false) in
  FRAME_CTR s' = c /\
  (fires ->
   RAND s' = regen (RAND s) /\
   count_regen (events s') = count_regen (events s) + 1) /\
  (~ fires ->
   RAND s' = RAND s /\ count_regen (events s') = count_regen (events s)).
Proof.
  intros Hwf. cbv zeta.
  pose proof (tick_effect s Hwf) as (_ & H24 & HR & _ & Hev & _).
  pose proof (regenerates_iff s Hwf) as Hiff. cbv zeta in Hiff.
  assert (Hr1 : forall (b : bool) v, count_regen (if b then [EvWrite v] else []) = 0)
    by (intros [] ?; reflexivity).
  split; [exact H24|]. rewrite HR, Hev, !count_regen_app, Hr1.
  split; intros Hf.
  - apply Hiff in Hf. rewrite Hf. cbn [count_regen]. split; [reflexivity|lia].
  - destruct (regenerates s); [exfalso; apply Hf, Hiff; reflexivity|].
    cbn [count_regen]. split; [reflexivity|lia].
Qed.

Lemma regeneration_schedule_witness :
  wf checkpoint_example /\ next_ctr checkpoint_example = 8 /\
  RAND (TIM0_OVF_vect checkpoint_example) = regen (RAND checkpoint_example).
Proof.
  assert (Hwf : wf checkpoint_example) by (unfold wf, is_byte; cbn; lia).
  split; [exact Hwf|]. split; [reflexivity|].
  destruct (regeneration_schedule checkpoint_example Hwf) as (_ & Hfire & _).
  apply Hfire. right. repeat split; auto.
Defined.

(** C6: a tick advances the frame counter by one modulo 32; over any 32
    consecutive ticks the counter comes back to where it was; OCR0A is
    written exactly once, in the tick that makes the counter 31: it keeps
    its old value up to that tick and holds the byte committed there
    from then on; and the generator is regenerated d times with
    1 <= d <= 4, ending d steps further on its orbit. *)
Theorem frame_cycle (s : cpu) :
  wf s -> 0 <= FRAME_CTR s < 32 ->
  FRAME_CTR (TIM0_OVF_vect s) = (FRAME_CTR s + 1) mod 32 /\
  FRAME_CTR (ticks 32 s) = FRAME_CTR s /\
  count_write (events (ticks 32 s)) = count_write (events s) + 1 /\
  count_regen (events s) + 1 <= count_regen (events (ticks 32 s)) <=
    count_regen (events s) + 4 /\
  (forall k : nat,
     count_write (events (ticks (S k) s)) =
     count_write (events (ticks k s)) +
     (if FRAME_CTR (ticks (S k) s) =? 0x1F then 1 else 0)) /\
  (exists d,
     1 <= d <= 4 /\
     count_regen (events (ticks 32 s)) = count_regen (events s) + d /\
     RAND (ticks 32 s) = orbit (RAND s) (Z.to_N d)) /\
  (let k := Z.to_nat ((30 - FRAME_CTR s) mod 32) in
   let t := ticks (S k) s in
   (forall j, (j <= k)%nat -> OCR0A (ticks j s) = OCR0A s) /\
   FRAME_CTR t = 31 /\
   events t = EvWrite (pwm_of (r20 t)) :: events (ticks k s) /\
   (forall j, (S k <= j <= 32)%nat -> OCR0A (ticks j s) = pwm_of (r20 t))).
Proof.
  unfold FRAME_CTR. intros Hwf Hc.
  pose proof (tick_effect s Hwf) as (_ & H24 & _).
  pose proof (ticks_counts 32 s Hwf) as (Hw & Hlo & Hhi).
  pose proof (frames_of_a_cycle (r24 s) Hc) as (F1 & F2 & F3).
  rewrite F1 in Hw. rewrite F2 in Hlo. rewrite F3 in Hhi.
  split; [rewrite H24; apply next_ctr_mod|].
  split.
  { rewrite ticks_ctr by (assumption || lia).
    change (Z.of_nat 32) with (1 * 32). rewrite Z.mod_add by lia.
    apply Z.mod_small. exact Hc. }
  split; [exact Hw|]. split; [lia|].
  split.
  { intros k. rewrite ticks_S.
    pose proof (tick_effect _ (ticks_wf k s Hwf)) as (_ & Hk24 & _ & _ & Hev & _).
    rewrite Hev, Hk24, !count_write_app.
    destruct (next_ctr (ticks k s) =? 31), (regenerates (ticks k s));
      cbn [count_write]; lia. }
  split.
  { pose proof (run_follows_orbit s 32 Hwf) as (_ & HR).
    exists (count_regen (events (ticks 32 s)) - count_regen (events s)).
    split; [lia|]. split; [lia|exact HR]. }
  cbv zeta.
  assert (Hk : Z.of_nat (Z.to_nat ((30 - r24 s) mod 32)) = (30 - r24 s) mod 32).
  { apply Z2Nat.id. apply Z.mod_pos_bound. lia. }
  revert Hk. generalize (Z.to_nat ((30 - r24 s) mod 32)). intros k Hk.
  assert (Hpre : forall j, (j <= k)%nat -> OCR0A (ticks j s) = OCR0A s).
  { intros j Hj. apply (run_keeps_duty_cycle s j Hwf Hc). unfold FRAME_CTR. lia. }
  pose proof (ticks_wf k s Hwf) as Hwfk.
  assert (Hnext : next_ctr (ticks k s) = 31).
  { rewrite (ticks_next_ctr k s Hwf), Nat2Z.inj_succ, Hk.
    Z.div_mod_to_equations. lia. }
  pose proof (tick_effect _ Hwfk) as (Hwft & Ht24 & _ & _ & Hev & Ho).
  rewrite (commit_frame_keeps _ Hnext) in Hev.
  rewrite Hnext, Z.eqb_refl in Hev, Ho. cbn [app] in Hev.
  rewrite ticks_S.
  split; [exact Hpre|]. split; [rewrite Ht24; exact Hnext|].
  split; [exact Hev|].
  intros j Hj.
  replace j with (S k + (j - S k))%nat by lia.
  rewrite ticks_add, ticks_S, <- Ho.
  apply (run_keeps_duty_cycle _ (j - S k) Hwft).
  - unfold FRAME_CTR. rewrite Ht24, Hnext. lia.
  - unfold FRAME_CTR. rewrite Ht24, Hnext. change ((30 - 31) mod 32) with 31. lia.
Qed.

Lemma frame_cycle_witness :
  wf power_on /\ 0 <= FRAME_CTR power_on < 32 /\
  FRAME_CTR (ticks 32 power_on) = FRAME_CTR power_on /\
  count_write (events (ticks 32 power_on)) = count_write (events power_on) + 1 /\
  OCR0A (ticks 32 power_on) = 0xFF.
Proof.
  assert (Hwf : wf power_on) by (unfold wf, is_byte; cbn; lia).
  assert (Hc : 0 <= FRAME_CTR power_on < 32) by (cbn; lia).
  split; [exact Hwf|]. split; [exact Hc|].
  destruct (frame_cycle power_on Hwf Hc) as (_ & H1 & H2 & _ & _ & _ & H7).
  split; [exact H1|]. split; [exact H2|].
  destruct H7 as (_ & _ & _ & Hpost).
  exact (Hpost 32%nat (conj (le_S _ _ (le_n 31)) (le_n 32))).
Defined.

(** ** No degenerate state *)

(** C7: after power-on the generator never sits in a fixed state: no
    value on the orbit of 0, hence no generator value the handler ever
    holds, is left in place by the regeneration block; every
    regenerating tick changes the generator, and one comes within any 32
    ticks.  The all-zero generator is turned into 0x7FFFF159 by any
    regenerating tick, the mandatory one at frame 0 included; after
    power-on that first happens at the eighth tick. *)
Theorem generator_never_stuck (s : cpu) :
  wf s -> RAND s = 0 -> next_ctr s = 0 \/ regenerates s = true ->
  RAND (TIM0_OVF_vect s) = 0x7FFFF159 /\
  RAND (TIM0_OVF_vect s) <> 0 /\
  (forall n : N, regen (orbit 0 n) <> orbit 0 n) /\
  (forall n : nat, regen (RAND (ticks n power_on)) <> RAND (ticks n power_on)) /\
  (forall n : nat,
     let t := ticks n power_on in
     RAND (L_NEW_RAND t) <> RAND t /\
     (regenerates t = true -> RAND (TIM0_OVF_vect t) <> RAND t)) /\
  (forall n : nat, exists k : nat, (k < 32)%nat /\
     RAND (ticks (S (n + k)) power_on) <> RAND (ticks (n + k) power_on)) /\
  (ticks 7 power_on = first_checkpoint_example /\
   RAND (ticks 8 power_on) = 0x7FFFF159).
Proof.
  intros Hwf H0 Hc.
  pose proof (tick_effect s Hwf) as (_ & _ & HR & _).
  assert (Hr : regenerates s = true).
  { destruct Hc as [Hc|Hc]; [|exact Hc]. unfold regenerates. rewrite Hc. reflexivity. }
  rewrite Hr, H0 in HR. rewrite HR.
  split; [reflexivity|]. split; [vm_compute; discriminate|].
  split; [exact orbit_no_fixed_point|].
  split.
  { intros n. destruct (ticks_on_orbit n) as (k & ->). apply orbit_no_fixed_point. }
  split.
  { intros n. cbv zeta. split; [apply regeneration_moves|apply regenerating_tick_moves]. }
  split; [exact generator_keeps_moving|].
  split; vm_compute; reflexivity.
Qed.

Lemma generator_never_stuck_witness :
  wf first_checkpoint_example /\ RAND first_checkpoint_example = 0 /\
  regenerates first_checkpoint_example = true /\
  RAND (TIM0_OVF_vect first_checkpoint_example) = 0x7FFFF159.
Proof.
  assert (Hwf : wf first_checkpoint_example) by (unfold wf, is_byte; cbn; lia).
  split; [exact Hwf|]. split; [reflexivity|]. split; [reflexivity|].
  exact (proj1 (generator_never_stuck first_checkpoint_example Hwf eq_refl
                  (or_intror eq_refl))).
Defined.

(** ** Writes to OCR0A *)

(** C8: a tick that does not make the frame counter 31 writes nothing to
    OCR0A: the register keeps its value and the log gains no write,
    whatever the generator holds. *)
Theorem no_write_before_commit (s : cpu) :
  wf s -> next_ctr s <> 0x1F ->
  let s' := TIM0_OVF_vect s in
  OCR0A s' = OCR0A s /\
  count_write (events s') = count_write (events s) /\
  (forall v, In (EvWrite v) (events s') -> In (EvWrite v) (events s)).
Proof.
  intros Hwf Hc. cbv zeta.
  pose proof (tick_effect s Hwf) as (_ & _ & _ & _ & Hev & Ho).
  apply Z.eqb_neq in Hc. rewrite Hc in Hev, Ho. rewrite app_nil_l in Hev.
  rewrite Ho, Hev. split; [reflexivity|].
  destruct (regenerates s); cbn [app count_write In].
  - split; [reflexivity|]. intros v [Hv|Hv]; [discriminate|exact Hv].
  - split; [reflexivity|]. auto.
Qed.

Lemma no_write_before_commit_witness :
  wf idle_example /\ next_ctr idle_example <> 0x1F /\
  OCR0A (TIM0_OVF_vect idle_example) = 0x7F.
Proof.
  assert (Hwf : wf idle_example) by (unfold wf, is_byte; cbn; lia).
  assert (Hc : next_ctr idle_example <> 0x1F) by (vm_compute; discriminate).
  split; [exact Hwf|]. split; [exact Hc|].
  exact (proj1 (no_write_before_commit idle_example Hwf Hc)).
Defined.

(** C9: for every 32-bit value the regeneration step yields a value with
    bit 31 clear (the feedback term has bit 31 clear as well); so after a
    regenerating tick the generator is below 2^31, and a generator below
    2^31 stays below 2^31 through any number of ticks. *)
Theorem regen_clears_bit31 (x : Z) (s : cpu) :
  0 <= x < 2 ^ 32 -> wf s ->
  Z.testbit LFSR_FEEDBACK_TERM 31 = false /\
  Z.testbit (regen x) 31 = false /\
  0 <= regen x < 2 ^ 31 /\
  (regenerates s = true -> RAND (TIM0_OVF_vect s) < 2 ^ 31) /\
  (RAND s < 2 ^ 31 -> forall n, RAND (ticks n s) < 2 ^ 31).
Proof.
  intros Hx Hwf. pose proof (regen_range x Hx) as Hr.
  split; [reflexivity|].
  split; [apply (testbit_high 31); [exact Hr|lia]|].
  split; [exact Hr|].
  split.
  - intros Hreg. pose proof (tick_effect s Hwf) as (_ & _ & HR & _).
    rewrite Hreg in HR. rewrite HR.
    apply regen_range, wf_RAND_range, Hwf.
  - intros Hlt n. induction n as [|n IH]; [exact Hlt|].
    rewrite ticks_S.
    pose proof (ticks_wf n s Hwf) as Hwfn.
    pose proof (tick_effect _ Hwfn) as (_ & _ & HR & _).
    rewrite HR. destruct (regenerates (ticks n s)); [|exact IH].
    apply regen_range, wf_RAND_range, Hwfn.
Qed.

Lemma regen_clears_bit31_witness :
  0 <= 0xFFFFFFFF < 2 ^ 32 /\ wf top_bit_example /\
  Z.testbit (regen 0xFFFFFFFF) 31 = false /\
  RAND (TIM0_OVF_vect top_bit_example) < 2 ^ 31.
Proof.
  assert (Hx : 0 <= 0xFFFFFFFF < 2 ^ 32) by (split; [discriminate|reflexivity]).
  assert (Hwf : wf top_bit_example) by (unfold wf, is_byte; cbn; lia).
  split; [exact Hx|]. split; [exact Hwf|].
  destruct (regen_clears_bit31 0xFFFFFFFF top_bit_example Hx Hwf)
    as (_ & Hbit & _ & Hreg & _).
  split; [exact Hbit|]. apply Hreg. reflexivity.
Defined.

(** C10: every byte a tick writes to OCR0A has low nibble 0xF, so it is
    at least 0x0F and never 0x00, in the full-brightness and in the
    mapped branch alike; hence over any run of ticks every write in the
    log is either an earlier one or such a byte. *)
Theorem committed_low_nibble (s : cpu) :
  wf s ->
  (exists new,
     events (TIM0_OVF_vect s) = new ++ events s /\
     forall v, In (EvWrite v) new ->
               Z.land v 0x0F = 0x0F /\ 0x0F <= v <= 0xFF /\ v <> 0) /\
  (forall (n : nat) (v : Z),
     In (EvWrite v) (events (ticks n s)) ->
     In (EvWrite v) (events s) \/
     (Z.land v 0x0F = 0x0F /\ 0x0F <= v <= 0xFF /\ v <> 0)).
Proof.
  assert (Htick : forall t, wf t ->
    exists new,
      events (TIM0_OVF_vect t) = new ++ events t /\
      forall v, In (EvWrite v) new ->
                Z.land v 0x0F = 0x0F /\ 0x0F <= v <= 0xFF /\ v <> 0).
  { intros t Hwf.
    pose proof (tick_effect t Hwf) as ((B0 & _) & _ & _ & _ & Hev & _).
    eexists. split; [rewrite Hev, app_assoc; reflexivity|].
    intros v Hin. apply in_app_or in Hin as [Hin|Hin].
    - destruct (next_ctr t =? 31); [|contradiction].
      destruct Hin as [Hin|[]]. injection Hin as <-.
      pose proof (pwm_of_facts _ B0) as (F1 & F2 & _).
      repeat split; try assumption; lia.
    - destruct (regenerates t); [|contradiction].
      destruct Hin as [Hin|[]]. discriminate. }
  intros Hwf. split; [exact (Htick s Hwf)|].
  induction n as [|n IH]; intros v Hin; [left; exact Hin|].
  rewrite ticks_S in Hin.
  destruct (Htick _ (ticks_wf n _ Hwf)) as (new & Hev & Hnew).
  rewrite Hev in Hin. apply in_app_or in Hin as [Hin|Hin]; auto.
Qed.

Lemma committed_low_nibble_witness :
  wf power_on /\
  In (EvWrite 0xFF) (events (ticks 31 power_on)) /\
  Z.land 0xFF 0x0F = 0x0F.
Proof.
  assert (Hwf : wf power_on) by (unfold wf, is_byte; cbn; lia).
  assert (Hin : In (EvWrite 0xFF) (events (ticks 31 power_on)))
    by (vm_compute; left; reflexivity).
  split; [exact Hwf|]. split; [exact Hin|].
  destruct (proj2 (committed_low_nibble power_on Hwf) 31%nat 0xFF Hin)
    as [[]|(H & _)].
  exact H.
Defined.

(** ** The generator from any state *)

Ltac xor_bits :=
  apply Z.bits_inj'; intros ? _; rewrite ?Z.lxor_spec;
  repeat match goal with
         | |- context [Z.testbit ?x ?n] => destruct (Z.testbit x n)
         end; reflexivity.

Lemma lxor_cancel_r (a b c : Z) : Z.lxor a c = Z.lxor b c -> a = b.
Proof.
  intros H. apply (f_equal (fun v => Z.lxor v c)) in H.
  rewrite !Z.lxor_assoc, Z.lxor_nilpotent, !Z.lxor_0_r in H. exact H.
Qed.

(** The step is affine over exclusive or. *)
Lemma regen_lxor (a b : Z) :
  regen (Z.lxor a b) = Z.lxor (Z.lxor (regen a) (regen b)) LFSR_FEEDBACK_TERM.
Proof.
  unfold regen. rewrite Z.lxor_spec, Z.shiftr_lxor.
  generalize (Z.shiftr a 1) (Z.shiftr b 1) LFSR_FEEDBACK_TERM. intros sa sb C.
  destruct (Z.testbit a 0), (Z.testbit b 0); cbn [xorb]; xor_bits.
Qed.

Lemma orbit_lxor (a b : Z) (n : N) :
  orbit (Z.lxor a b) n = Z.lxor (Z.lxor (orbit a n) (orbit b n)) (orbit 0 n).
Proof.
  induction n as [|n IH] using N.peano_ind.
  - unfold orbit. cbn. now rewrite Z.lxor_0_r.
  - rewrite !orbit_succ, IH, !regen_lxor.
    generalize (regen (orbit a n)) (regen (orbit b n)) (regen (orbit 0 n))
               LFSR_FEEDBACK_TERM.
    intros ra rb r0 C. xor_bits.
Qed.

Lemma return_additive (a b : Z) :
  orbit (Z.lxor a b) orbit_length = Z.lxor (orbit a orbit_length) (orbit b orbit_length).
Proof. now rewrite orbit_lxor, orbit_closes, Z.lxor_0_r. Qed.

Lemma orbit_shift (x : Z) (n : N) : orbit x (N.succ n) = orbit (regen x) n.
Proof.
  induction n as [|n IH] using N.peano_ind; [reflexivity|].
  rewrite orbit_succ, IH, <- orbit_succ. reflexivity.
Qed.

Lemma regen_pow2 (i : Z) :
  1 <= i -> regen (2 ^ i) = Z.lxor (2 ^ (i - 1)) LFSR_FEEDBACK_TERM.
Proof.
  intros Hi. unfold regen.
  rewrite Z.pow2_bits_false by lia.
  rewrite Z.shiftr_div_pow2 by lia. change (2 ^ 1) with 2.
  replace (2 ^ i) with (2 * 2 ^ (i - 1)).
  - rewrite Z.mul_comm, Z.div_mul by lia. reflexivity.
  - rewrite <- Z.pow_succ_r by lia. f_equal. lia.
Qed.

Lemma top_bit_returns : orbit (2 ^ 30) orbit_length = 2 ^ 30.
Proof. vm_compute. reflexivity. Qed.

(** One orbit is walked; the lower bits follow, each being the step of
    the bit above it up to the feedback term. *)
Lemma basis_returns_down (j : nat) :
  (j <= 30)%nat ->
  orbit (2 ^ (30 - Z.of_nat j)) orbit_length = 2 ^ (30 - Z.of_nat j).
Proof.
  induction j as [|j IH]; intros Hj; [exact top_bit_returns|].
  specialize (IH ltac:(lia)).
  remember (30 - Z.of_nat j) as i eqn:Ei.
  replace (30 - Z.of_nat (S j)) with (i - 1) by lia.
  assert (Hi : 1 <= i) by lia.
  apply (f_equal regen) in IH.
  rewrite <- orbit_succ, orbit_shift, regen_pow2 in IH by exact Hi.
  rewrite return_additive in IH.
  assert (HC : orbit LFSR_FEEDBACK_TERM orbit_length = LFSR_FEEDBACK_TERM).
  { change LFSR_FEEDBACK_TERM with (regen 0) at 1.
    rewrite <- orbit_shift, orbit_succ, orbit_closes. reflexivity. }
  rewrite HC in IH.
  exact (lxor_cancel_r _ _ _ IH).
Qed.

Lemma basis_returns (k : Z) : 0 <= k < 31 -> orbit (2 ^ k) orbit_length = 2 ^ k.
Proof.
  intros Hk. pose proof (basis_returns_down (Z.to_nat (30 - k)) ltac:(lia)) as H.
  replace (30 - Z.of_nat (Z.to_nat (30 - k))) with k in H by lia.
  exact H.
Qed.

Lemma returns_below (k : nat) (x : Z) :
  (k <= 31)%nat -> 0 <= x < 2 ^ Z.of_nat k -> orbit x orbit_length = x.
Proof.
  revert x. induction k as [|k IH]; intros x Hk Hx.
  - change (2 ^ Z.of_nat 0) with 1 in Hx. replace x with 0 by lia. exact orbit_closes.
  - rewrite Nat2Z.inj_succ, Z.pow_succ_r in Hx by lia.
    assert (Hp : 0 < 2 ^ Z.of_nat k) by (apply Z.pow_pos_nonneg; lia).
    pose proof (Z.mod_pos_bound x (2 ^ Z.of_nat k) Hp) as Hlo.
    pose proof (Z.div_mod x (2 ^ Z.of_nat k) ltac:(lia)) as Hdm.
    assert (Hhi : x / 2 ^ Z.of_nat k = 0 \/ x / 2 ^ Z.of_nat k = 1).
    { assert (0 <= x / 2 ^ Z.of_nat k) by (apply Z.div_pos; lia).
      assert (x / 2 ^ Z.of_nat k < 2) by (apply Z.div_lt_upper_bound; lia).
      lia. }
    destruct Hhi as [Hhi|Hhi]; rewrite Hhi in Hdm.
    + apply IH; lia.
    + assert (Hx' : x = Z.lxor (x mod 2 ^ Z.of_nat k) (2 ^ Z.of_nat k)).
      { pose proof (lxor_glue (Z.of_nat k) (x mod 2 ^ Z.of_nat k) 0 0 1) as G.
        rewrite Z.lxor_0_r, Z.mul_0_r, Z.add_0_r, Z.add_0_l in G.
        change (Z.lxor 0 1) with 1 in G. rewrite Z.mul_1_r in G.
        rewrite G by lia. lia. }
      rewrite Hx' at 1. rewrite return_additive.
      rewrite (IH (x mod 2 ^ Z.of_nat k)) by lia.
      rewrite basis_returns by lia. symmetry. exact Hx'.
Qed.

Lemma orbit_range_from (x : Z) (n : N) :
  0 <= x < 2 ^ 31 -> 0 <= orbit x n < 2 ^ 31.
Proof.
  intros Hx. induction n as [|n IH] using N.peano_ind; [exact Hx|].
  rewrite orbit_succ. apply regen_range.
  change (2 ^ 32) with 4294967296. change (2 ^ 31) with 2147483648 in IH. lia.
Qed.

Lemma returns_below_2_31 (x : Z) : 0 <= x < 2 ^ 31 -> orbit x orbit_length = x.
Proof. intros Hx. apply (returns_below 31); [lia|exact Hx]. Qed.

Lemma orbit_add (x : Z) (a b : N) : orbit x (a + b) = orbit (orbit x a) b.
Proof.
  induction b as [|b IH] using N.peano_ind.
  - rewrite N.add_0_r. reflexivity.
  - rewrite N.add_succ_r, !orbit_succ, IH. reflexivity.
Qed.

Lemma orbit_mul (x : Z) (p q : N) : orbit x p = x -> orbit x (q * p) = x.
Proof.
  intros Hp. induction q as [|q IH] using N.peano_ind; [reflexivity|].
  rewrite N.mul_succ_l, orbit_add, IH. exact Hp.
Qed.

(** The length of a cycle through a value below 2^31 divides 436905. *)
Lemma cycle_length_divides (x : Z) (p : N) :
  0 <= x < 2 ^ 31 -> (0 < p)%N -> orbit x p = x ->
  (forall k, (0 < k < p)%N -> orbit x k <> x) ->
  (p | orbit_length)%N.
Proof.
  intros Hx Hp Hret Hmin.
  assert (Hp0 : p <> 0%N) by lia.
  apply N.Lcm0.mod_divide.
  pose proof (N.mod_lt orbit_length p Hp0) as Hlt.
  pose proof (returns_below_2_31 x Hx) as Hall.
  rewrite (N.div_mod orbit_length p Hp0) in Hall.
  rewrite orbit_add, N.mul_comm, (orbit_mul x p _ Hret) in Hall.
  destruct (N.eq_dec (orbit_length mod p) 0) as [E|E]; [exact E|].
  exfalso. apply (Hmin (orbit_length mod p)%N); [|exact Hall].
  split; [apply N.neq_0_lt_0; exact E|exact Hlt].
Qed.

(** X1: 436905 is a common multiple of the cycle lengths of the
    regeneration step, not the cycle length of every value.  From every
    32-bit value the sequence repeats after 436905 further steps once
    the first step is taken, and a value below 2^31 is back after 436905
    steps; the number of steps after which such a value first comes back
    divides 436905.  It is 436905 itself for the value 0 and 15 for
    0x05B9F420. *)
Theorem cycle_lengths_divide_436905 (x : Z) :
  0 <= x < 2 ^ 32 ->
  orbit x (N.succ orbit_length) = orbit x 1 /\
  (x < 2 ^ 31 -> orbit x orbit_length = x) /\
  (x < 2 ^ 31 ->
   forall p : N, (0 < p)%N -> orbit x p = x ->
     (forall k, (0 < k < p)%N -> orbit x k <> x) ->
     (p | orbit_length)%N) /\
  (orbit 0 orbit_length = 0 /\ snd (walk 0 (N.pred orbit_length)) = false) /\
  (0 <= short_cycle_example < 2 ^ 31 /\
   orbit short_cycle_example 15 = short_cycle_example /\
   snd (walk short_cycle_example 14) = false).
Proof.
  intros Hx. split.
  { rewrite orbit_shift. apply returns_below_2_31, regen_range, Hx. }
  split.
  { intros Hlt. apply returns_below_2_31. lia. }
  split.
  { intros Hlt p Hp Hret Hmin. apply (cycle_length_divides x p); try assumption. lia. }
  split; [split; [exact orbit_closes|exact walk_clean]|].
  split; [split; [discriminate|reflexivity]|].
  split; vm_compute; reflexivity.
Qed.

Lemma cycle_lengths_divide_436905_witness :
  0 <= short_cycle_example < 2 ^ 32 /\
  orbit short_cycle_example (N.succ orbit_length) = orbit short_cycle_example 1 /\
  (15 | orbit_length)%N.
Proof.
  assert (Hx : 0 <= short_cycle_example < 2 ^ 32) by (split; [discriminate|reflexivity]).
  split; [exact Hx|].
  destruct (cycle_lengths_divide_436905 short_cycle_example Hx)
    as (H1 & _ & Hdiv & _ & (_ & Hret & Hwalk)).
  split; [exact H1|].
  apply Hdiv; [reflexivity|reflexivity|exact Hret|].
  intros k Hk. apply (walk_no_return short_cycle_example 14 Hwalk). lia.
Defined.

(** ** The fixed point *)

Lemma shiftr_self (y : Z) : 0 <= y -> y = Z.shiftr y 1 -> y = 0.
Proof.
  intros Hy E. rewrite Z.shiftr_div_pow2 in E by lia. change (2 ^ 1) with 2 in E.
  Z.div_mod_to_equations. lia.
Qed.

(** X2: among the 32-bit values the regeneration step has exactly one
    fixed point, 0x55555E6E. *)
Theorem unique_fixed_point (x : Z) :
  0 <= x < 2 ^ 32 -> (regen x = x <-> x = fixed_point).
Proof.
  intros Hx. split; [|intros ->; vm_compute; reflexivity].
  intros E. unfold regen in E.
  destruct (Z.testbit x 0) eqn:Hb.
  - assert (x = 0) by (apply shiftr_self; [lia|now symmetry]).
    subst x. discriminate Hb.
  - assert (Hfp : Z.lxor (Z.shiftr fixed_point 1) LFSR_FEEDBACK_TERM = fixed_point)
      by (vm_compute; reflexivity).
    apply Z.lxor_eq. apply shiftr_self.
    + apply Z.lxor_nonneg. unfold fixed_point. lia.
    + rewrite Z.shiftr_lxor. rewrite <- E at 1. rewrite <- Hfp at 1.
      generalize (Z.shiftr x 1) (Z.shiftr fixed_point 1) LFSR_FEEDBACK_TERM.
      intros a b c. xor_bits.
Qed.

Lemma unique_fixed_point_witness :
  0 <= fixed_point < 2 ^ 32 /\ regen fixed_point = fixed_point.
Proof.
  assert (Hx : 0 <= fixed_point < 2 ^ 32) by (split; [discriminate|reflexivity]).
  split; [exact Hx|]. exact (proj2 (unique_fixed_point fixed_point Hx) eq_refl).
Defined.

Lemma r20_of_RAND (s : cpu) : wf s -> r20 s = RAND s mod 256.
Proof.
  intros (H0 & H1 & H2 & H3 & _). unfold RAND, is_byte in *.
  Z.div_mod_to_equations. lia.
Qed.

(** X3: a generator holding the fixed point is never changed by the
    handler, and every duty cycle written from then on is 0xEF. *)
Theorem stuck_at_fixed_point (s : cpu) (n : nat) :
  wf s -> RAND s = fixed_point ->
  RAND (ticks n s) = fixed_point /\
  (forall v, In (EvWrite v) (events (ticks n s)) ->
             In (EvWrite v) (events s) \/ v = 0xEF).
Proof.
  intros Hwf H0. induction n as [|n (IHR & IHev)].
  - split; [exact H0|]. intros v Hv. now left.
  - rewrite ticks_S. pose proof (ticks_wf n s Hwf) as Hwfn.
    pose proof (tick_effect _ Hwfn) as (Hwf' & _ & HR & _ & Hev & _).
    assert (HR' : RAND (TIM0_OVF_vect (ticks n s)) = fixed_point).
    { rewrite HR, IHR. destruct (regenerates (ticks n s)); reflexivity. }
    split; [exact HR'|].
    intros v Hv. rewrite Hev in Hv.
    apply in_app_or in Hv as [Hv|Hv]; [|apply in_app_or in Hv as [Hv|Hv]].
    + destruct (next_ctr (ticks n s) =? 31); [|contradiction].
      destruct Hv as [Hv|[]]. injection Hv as <-. right.
      rewrite (r20_of_RAND _ Hwf'), HR'. reflexivity.
    + destruct (regenerates (ticks n s)); [|contradiction].
      destruct Hv as [Hv|[]]. discriminate.
    + apply IHev, Hv.
Qed.

Lemma stuck_at_fixed_point_witness :
  wf stuck_example /\ RAND stuck_example = fixed_point /\
  RAND (ticks 64 stuck_example) = fixed_point.
Proof.
  assert (Hwf : wf stuck_example) by (unfold wf, is_byte; cbn; lia).
  split; [exact Hwf|]. split; [reflexivity|].
  exact (proj1 (stuck_at_fixed_point stuck_example 64 Hwf eq_refl)).
Defined.

(** X4: the regeneration step permutes the values below 2^31: each has
    exactly one predecessor below 2^31.  On all 32-bit values it is not
    injective. *)
Theorem regen_permutes (y : Z) :
  0 <= y < 2 ^ 31 ->
  (exists x, 0 <= x < 2 ^ 31 /\ regen x = y /\
             forall x', 0 <= x' < 2 ^ 31 -> regen x' = y -> x' = x) /\
  regen 0x80000001 = regen 0x7FFFE2B2.
Proof.
  intros Hy. split; [|vm_compute; reflexivity].
  exists (orbit y (N.pred orbit_length)).
  pose proof (orbit_range_from y (N.pred orbit_length) Hy) as Hr.
  assert (Hback : regen (orbit y (N.pred orbit_length)) = y).
  { rewrite <- orbit_succ, N.succ_pred by discriminate.
    apply returns_below_2_31, Hy. }
  split; [exact Hr|]. split; [exact Hback|].
  intros x' Hx' E. apply regen_injective; [exact Hx'|exact Hr|].
  now rewrite Hback.
Qed.

Lemma regen_permutes_witness :
  0 <= 1 < 2 ^ 31 /\ exists x, 0 <= x < 2 ^ 31 /\ regen x = 1.
Proof.
  assert (Hy : 0 <= 1 < 2 ^ 31) by (split; [discriminate|reflexivity]).
  split; [exact Hy|].
  destruct (proj1 (regen_permutes 1 Hy)) as (x & Hx & E & _).
  exists x. split; [exact Hx|exact E].
Defined.

(** ** The handler as a whole *)

Lemma NEW_PWM_unfold (a0 a1 a2 a3 c t : Z) (fc fz : bool) (o : Z) (ev : list event) :
  L_NEW_PWM (mkCpu a0 a1 a2 a3 c t fc fz o ev) =
  if c =? 0x1F
  then mkCpu a0 a1 a2 a3 c (pwm_of a0) false
             (if Z.testbit a0 4 then true else pwm_of a0 =? 0)
             (pwm_of a0) (EvWrite (pwm_of a0) :: ev)
  else mkCpu a0 a1 a2 a3 c t (c <? 0x1F) false o ev.
Proof.
  cbv beta iota zeta delta
    [L_NEW_PWM L_SET_PWM L_RETI mov ldi ori cpi swap out_OCR0A brne sbrc
     result set get setC setZ emit
     r20 r21 r22 r23 r24 r31 flagC flagZ OCR0A events pwm_of].
  destruct (c =? 31) eqn:E; cbv beta iota delta [negb]; [|reflexivity].
  apply Z.eqb_eq in E. subst c. change (31 <? 31) with false.
  destruct (Z.testbit a0 4); reflexivity.
Qed.

(** X5: the handler's whole result is fixed by RAND, FRAME_CTR, OCR0A and
    the log; what r31 and the flags held on entry has no influence. *)
Theorem handler_ignores_scratch (s1 s2 : cpu) :
  same_inputs s1 s2 -> TIM0_OVF_vect s1 = TIM0_OVF_vect s2.
Proof.
  destruct s1 as [a0 a1 a2 a3 c t1 fc1 fz1 o ev].
  destruct s2 as [b0 b1 b2 b3 d t2 fc2 fz2 o' ev'].
  unfold same_inputs. cbn [r20 r21 r22 r23 r24 OCR0A events].
  intros (<- & <- & <- & <- & <- & <- & <-).
  rewrite !TIM0_unfold. cbv zeta.
  destruct (Z.land ((c + 1) mod 256) 31 =? 0).
  - rewrite !NEW_RAND_unfold. reflexivity.
  - destruct (Z.land (Z.land ((c + 1) mod 256) 31) 7 =? 0).
    + destruct (Z.land a0 12 =? 0).
      * rewrite !NEW_RAND_unfold. reflexivity.
      * rewrite !NEW_PWM_unfold. reflexivity.
    + rewrite !NEW_PWM_unfold. reflexivity.
Qed.

Lemma handler_ignores_scratch_witness :
  same_inputs commit_example scratch_example /\
  TIM0_OVF_vect commit_example = TIM0_OVF_vect scratch_example.
Proof.
  assert (H : same_inputs commit_example scratch_example)
    by (unfold same_inputs; repeat split).
  split; [exact H|]. exact (handler_ignores_scratch _ _ H).
Defined.

(** X6: after any run of ticks the generator is the initial one advanced
    on its orbit by as many steps as the run logged regenerations. *)
Theorem ticks_follow_orbit (s : cpu) (n : nat) :
  wf s ->
  let d := count_regen (events (ticks n s)) - count_regen (events s) in
  0 <= d /\ RAND (ticks n s) = orbit (RAND s) (Z.to_N d).
Proof. exact (run_follows_orbit s n). Qed.

Lemma ticks_follow_orbit_witness :
  wf power_on /\ RAND (ticks 40 power_on) = orbit 0 2.
Proof.
  assert (Hwf : wf power_on) by (unfold wf, is_byte; cbn; lia).
  split; [exact Hwf|].
  exact (proj2 (ticks_follow_orbit power_on 40 Hwf)).
Defined.

(** X7: whatever byte FRAME_CTR held, after n >= 1 ticks it is the sum
    modulo 32, hence within 0..31. *)
Theorem counter_after_ticks (s : cpu) (n : nat) :
  wf s -> (0 < n)%nat ->
  FRAME_CTR (ticks n s) = (FRAME_CTR s + Z.of_nat n) mod 32 /\
  0 <= FRAME_CTR (ticks n s) < 32.
Proof.
  intros Hwf Hn. unfold FRAME_CTR. rewrite ticks_ctr by assumption.
  split; [reflexivity|]. apply Z.mod_pos_bound. lia.
Qed.

Lemma counter_after_ticks_witness :
  wf wild_counter_example /\ (0 < 3)%nat /\
  FRAME_CTR (ticks 3 wild_counter_example) = 2.
Proof.
  assert (Hwf : wf wild_counter_example) by (unfold wf, is_byte; cbn; lia).
  assert (Hn : (0 < 3)%nat) by lia.
  split; [exact Hwf|]. split; [exact Hn|].
  exact (proj1 (counter_after_ticks wild_counter_example 3 Hwf Hn)).
Defined.

(** ** Frames in which nothing happens *)

(** A tick that neither regenerates nor commits only moves the counter. *)
Lemma quiet_tick (s : cpu) :
  wf s -> regenerates s = false -> next_ctr s <> 0x1F ->
  let s' := TIM0_OVF_vect s in
  RAND s' = RAND s /\ r20 s' = r20 s /\ events s' = events s /\
  OCR0A s' = OCR0A s /\ r24 s' = next_ctr s.
Proof.
  intros Hwf Hreg Hc. cbv zeta.
  pose proof (tick_effect s Hwf) as (_ & H24 & HR & Hlo & Hev & Ho).
  apply Z.eqb_neq in Hc. rewrite Hreg in HR, Hev. rewrite Hc in Hev, Ho.
  repeat split; auto.
Qed.

Lemma regenerates_false (s : cpu) :
  next_ctr s <> 0 -> (next_ctr s mod 8 <> 0 \/ Z.land (r20 s) 12 <> 0) ->
  regenerates s = false.
Proof.
  intros H0 H. unfold regenerates. rewrite land_7.
  apply Z.eqb_neq in H0. rewrite H0. cbn [orb].
  destruct H as [H|H]; apply Z.eqb_neq in H; rewrite H;
    [reflexivity|apply andb_false_r].
Qed.

(** X8: the generator changes only at frames 0, 8, 16 and 24: a run of
    ticks that reaches no multiple of 8 leaves it, and the count of
    regenerations, as they were. *)
Theorem generator_idle_between_checkpoints (s : cpu) (n : nat) :
  wf s -> 0 <= FRAME_CTR s < 32 -> FRAME_CTR s mod 8 + Z.of_nat n < 8 ->
  RAND (ticks n s) = RAND s /\
  count_regen (events (ticks n s)) = count_regen (events s).
Proof.
  unfold FRAME_CTR. intros Hwf Hc Hn. induction n as [|n IH].
  - split; reflexivity.
  - destruct IH as (IHR & IHc); [lia|].
    rewrite ticks_S. pose proof (ticks_wf n s Hwf) as Hwfn.
    pose proof (tick_effect _ Hwfn) as (_ & _ & HR & _ & Hev & _).
    pose proof (ticks_next_ctr n s Hwf) as Hnext.
    assert (Hreg : regenerates (ticks n s) = false).
    { apply regenerates_false; rewrite Hnext;
        [|left]; Z.div_mod_to_equations; lia. }
    rewrite Hreg in HR, Hev. rewrite HR, Hev, !count_regen_app.
    split; [exact IHR|].
    destruct (next_ctr (ticks n s) =? 31); cbn [count_regen]; lia.
Qed.

Lemma generator_idle_between_checkpoints_witness :
  wf idle_example /\ 0 <= FRAME_CTR idle_example < 32 /\
  FRAME_CTR idle_example mod 8 + Z.of_nat 3 < 8 /\
  RAND (ticks 3 idle_example) = RAND idle_example.
Proof.
  assert (Hwf : wf idle_example) by (unfold wf, is_byte; cbn; lia).
  assert (Hc : 0 <= FRAME_CTR idle_example < 32) by (cbn; lia).
  assert (Hn : FRAME_CTR idle_example mod 8 + Z.of_nat 3 < 8) by reflexivity.
  split; [exact Hwf|]. split; [exact Hc|]. split; [exact Hn|].
  exact (proj1 (generator_idle_between_checkpoints idle_example 3 Hwf Hc Hn)).
Defined.

Lemma accepted_run (s : cpu) (m : nat) :
  wf s -> 0 <= r24 s -> Z.land (r20 s) 12 <> 0 -> r24 s + Z.of_nat m < 31 ->
  RAND (ticks m s) = RAND s /\ r20 (ticks m s) = r20 s /\
  events (ticks m s) = events s /\ OCR0A (ticks m s) = OCR0A s.
Proof.
  intros Hwf Hc Hacc Hm. induction m as [|m IH].
  - repeat split.
  - destruct IH as (IR & I20 & Iev & Io); [lia|].
    rewrite ticks_S. pose proof (ticks_wf m s Hwf) as Hwfm.
    pose proof (ticks_next_ctr m s Hwf) as Hnext.
    assert (Hval : next_ctr (ticks m s) = r24 s + Z.of_nat (S m)).
    { rewrite Hnext. apply Z.mod_small. lia. }
    pose proof (quiet_tick (ticks m s) Hwfm) as Q. cbv zeta in Q.
    destruct Q as (QR & Q20 & Qev & Qo & _).
    + apply regenerates_false; [lia|right; now rewrite I20].
    + lia.
    + rewrite QR, Q20, Qev, Qo. repeat split; assumption.
Qed.

(** X9: a generator value that passes the rejection test (bit 2 or bit 3
    of the low byte set) is not regenerated in the rest of the cycle; it
    is the value committed at frame 31, as a duty cycle of at least 0x4F,
    and no other write happens on the way. *)
Theorem accepted_value_is_committed (s : cpu) :
  wf s -> 0 <= FRAME_CTR s < 31 -> Z.land (r20 s) 12 <> 0 ->
  let s' := ticks (Z.to_nat (31 - FRAME_CTR s)) s in
  FRAME_CTR s' = 31 /\ RAND s' = RAND s /\
  events s' = EvWrite (pwm_of (r20 s)) :: events s /\
  OCR0A s' = pwm_of (r20 s) /\
  0x4F <= pwm_of (r20 s).
Proof.
  unfold FRAME_CTR. intros Hwf Hc Hacc. cbv zeta.
  replace (Z.to_nat (31 - r24 s)) with (S (Z.to_nat (30 - r24 s))) by lia.
  set (m := Z.to_nat (30 - r24 s)).
  destruct (accepted_run s m Hwf ltac:(lia) Hacc ltac:(lia)) as (IR & I20 & Iev & Io).
  rewrite ticks_S. pose proof (ticks_wf m s Hwf) as Hwfm.
  pose proof (ticks_next_ctr m s Hwf) as Hnext.
  assert (Hval : next_ctr (ticks m s) = 31).
  { rewrite Hnext. replace (r24 s + Z.of_nat (S m)) with 31 by lia. reflexivity. }
  pose proof (tick_effect _ Hwfm) as (_ & H24 & HR & Hlo & Hev & Ho).
  pose proof (commit_frame_keeps _ Hval) as Hk.
  rewrite Hk in HR, Hev. rewrite Hval, Z.eqb_refl in Hev, Ho.
  rewrite (Hlo Hk), I20 in Hev, Ho. cbn [app] in Hev.
  rewrite H24, HR, Hev, Ho, IR, Iev.
  repeat split; try reflexivity; try exact Hval.
  destruct Hwf as (B0 & _). revert Hacc. generalize (r20 s) B0.
  by_bytes (fun v => (Z.land v 12 =? 0) || (0x4F <=? pwm_of v)).
  intros Hacc. apply Z.eqb_neq in Hacc. rewrite Hacc in H. now apply Z.leb_le.
Qed.

Lemma accepted_value_is_committed_witness :
  wf accepted_example /\ 0 <= FRAME_CTR accepted_example < 31 /\
  Z.land (r20 accepted_example) 12 <> 0 /\
  events (ticks 23 accepted_example) = [EvWrite 0x6F].
Proof.
  assert (Hwf : wf accepted_example) by (unfold wf, is_byte; cbn; lia).
  assert (Hc : 0 <= FRAME_CTR accepted_example < 31) by (cbn; lia).
  assert (Ha : Z.land (r20 accepted_example) 12 <> 0) by discriminate.
  split; [exact Hwf|]. split; [exact Hc|]. split; [exact Ha|].
  exact (proj1 (proj2 (proj2 (accepted_value_is_committed accepted_example Hwf Hc Ha)))).
Defined.

(** X10: a committed duty cycle stays in OCR0A, with no write at all,
    for every run of ticks that does not reach frame 31: for the 31
    ticks after a commit, and up to frame 30 otherwise. *)
Theorem duty_cycle_persists (s : cpu) (n : nat) :
  wf s -> 0 <= FRAME_CTR s < 32 -> Z.of_nat n <= (30 - FRAME_CTR s) mod 32 ->
  OCR0A (ticks n s) = OCR0A s /\
  count_write (events (ticks n s)) = count_write (events s).
Proof. exact (run_keeps_duty_cycle s n). Qed.

Lemma duty_cycle_persists_witness :
  wf after_commit_example /\ 0 <= FRAME_CTR after_commit_example < 32 /\
  Z.of_nat 31 <= (30 - FRAME_CTR after_commit_example) mod 32 /\
  OCR0A (ticks 31 after_commit_example) = 0x5F.
Proof.
  assert (Hwf : wf after_commit_example) by (unfold wf, is_byte; cbn; lia).
  assert (Hc : 0 <= FRAME_CTR after_commit_example < 32) by (cbn; lia).
  assert (Hn : Z.of_nat 31 <= (30 - FRAME_CTR after_commit_example) mod 32)
    by discriminate.
  split; [exact Hwf|]. split; [exact Hc|]. split; [exact Hn|].
  exact (proj1 (duty_cycle_persists after_commit_example 31 Hwf Hc Hn)).
Defined.

(** ** Brightness and the rejection test *)

Lemma commit_writes (s : cpu) :
  wf s -> next_ctr s = 0x1F -> OCR0A (TIM0_OVF_vect s) = pwm_of (r20 s).
Proof.
  intros Hwf Hc.
  pose proof (tick_effect s Hwf) as (_ & _ & _ & Hlo & _ & Ho).
  rewrite Hc, Z.eqb_refl in Ho.
  now rewrite Ho, (Hlo (commit_frame_keeps s Hc)).
Qed.

(** X11: the committed duty cycle depends on the low five bits of the
    generator's low byte only: two generators that agree on them commit
    the same byte. *)
Theorem brightness_uses_five_bits (s1 s2 : cpu) :
  wf s1 -> wf s2 -> next_ctr s1 = 0x1F -> next_ctr s2 = 0x1F ->
  r20 s1 mod 32 = r20 s2 mod 32 ->
  OCR0A (TIM0_OVF_vect s1) = OCR0A (TIM0_OVF_vect s2).
Proof.
  intros Hwf1 Hwf2 Hc1 Hc2 E.
  rewrite !commit_writes by assumption.
  assert (H5 : forall v, is_byte v -> pwm_of v = pwm_of (v mod 32)).
  { by_bytes (fun v => pwm_of v =? pwm_of (v mod 32)). now apply Z.eqb_eq. }
  destruct Hwf1 as (B1 & _). destruct Hwf2 as (B2 & _).
  now rewrite (H5 _ B1), (H5 _ B2), E.
Qed.

Lemma brightness_uses_five_bits_witness :
  wf commit_example /\ wf high_bits_example /\
  r20 commit_example mod 32 = r20 high_bits_example mod 32 /\
  OCR0A (TIM0_OVF_vect high_bits_example) = 0x5F.
Proof.
  assert (H1 : wf commit_example) by (unfold wf, is_byte; cbn; lia).
  assert (H2 : wf high_bits_example) by (unfold wf, is_byte; cbn; lia).
  split; [exact H1|]. split; [exact H2|]. split; [reflexivity|].
  exact (eq_sym (brightness_uses_five_bits commit_example high_bits_example
                   H1 H2 eq_refl eq_refl eq_refl)).
Defined.

(** X12: at a checkpoint 8, 16 or 24 the low byte decides: with bit 2 or
    bit 3 set the generator is kept and would commit at least 0x4F; with
    both clear it is regenerated, and the value given up would have
    committed at most 0x3F or, when its bit 4 is set, the full 0xFF. *)
Theorem rejection_threshold (s : cpu) :
  wf s -> next_ctr s = 8 \/ next_ctr s = 16 \/ next_ctr s = 24 ->
  let lo := r20 s in
  let s' := TIM0_OVF_vect s in
  (Z.land lo 12 <> 0 -> RAND s' = RAND s /\ 0x4F <= pwm_of lo) /\
  (Z.land lo 12 = 0 ->
   RAND s' = regen (RAND s) /\
   (if Z.testbit lo 4 then pwm_of lo = 0xFF else pwm_of lo <= 0x3F)).
Proof.
  intros Hwf Hc. cbv zeta.
  pose proof (tick_effect s Hwf) as (_ & _ & HR & _).
  assert (Hreg : regenerates s = (Z.land (r20 s) 12 =? 0)).
  { unfold regenerates. destruct Hc as [-> | [-> | ->]]; reflexivity. }
  rewrite Hreg in HR. destruct Hwf as (B0 & _).
  assert (Hp : forall v, is_byte v ->
    (Z.land v 12 <> 0 -> 0x4F <= pwm_of v) /\
    (Z.land v 12 = 0 ->
     if Z.testbit v 4 then pwm_of v = 0xFF else pwm_of v <= 0x3F)).
  { by_bytes (fun v =>
      if Z.land v 12 =? 0
      then (if Z.testbit v 4 then pwm_of v =? 0xFF else pwm_of v <=? 0x3F)
      else 0x4F <=? pwm_of v).
    split; intros E.
    - apply Z.eqb_neq in E. rewrite E in H. now apply Z.leb_le.
    - rewrite E in H. cbn [Z.eqb] in H.
      destruct (Z.testbit v 4); [now apply Z.eqb_eq|now apply Z.leb_le]. }
  destruct (Hp _ B0) as (Hkeep & Hdrop).
  split; intros E.
  - split; [|exact (Hkeep E)]. apply Z.eqb_neq in E. now rewrite E in HR.
  - split; [|exact (Hdrop E)]. rewrite E in HR. exact HR.
Qed.

Lemma rejection_threshold_witness :
  wf checkpoint_example /\ next_ctr checkpoint_example = 8 /\
  Z.land (r20 checkpoint_example) 12 = 0 /\
  RAND (TIM0_OVF_vect checkpoint_example) = regen (RAND checkpoint_example) /\
  pwm_of (r20 checkpoint_example) = 0xFF.
Proof.
  assert (Hwf : wf checkpoint_example) by (unfold wf, is_byte; cbn; lia).
  split; [exact Hwf|]. split; [reflexivity|]. split; [reflexivity|].
  exact (proj2 (rejection_threshold checkpoint_example Hwf (or_introl eq_refl)) eq_refl).
Defined.

(** X13: of the 256 low bytes, 136 commit the full duty cycle 0xFF (the
    128 with bit 4 set and the 8 with bit 4 clear and low nibble 0xF),
    that is 17 of every 32; each of the other fifteen levels 0x0F..0xEF
    is committed by 8 low bytes. *)
Theorem full_brightness_share (k : Z) :
  0 <= k < 15 ->
  how_many (fun v => pwm_of v =? 0xFF) 256 = 136 /\
  how_many (fun v => Z.testbit v 4) 256 = 128 /\
  how_many (fun v => pwm_of v =? 16 * k + 15) 256 = 8.
Proof.
  intros Hk.
  split; [vm_compute; reflexivity|]. split; [vm_compute; reflexivity|].
  apply Z.eqb_eq.
  exact (below_sound
           (fun k => how_many (fun v => pwm_of v =? 16 * k + 15) 256 =? 8) 15
           ltac:(vm_compute; reflexivity) k Hk).
Qed.

Lemma full_brightness_share_witness :
  0 <= 5 < 15 /\ how_many (fun v => pwm_of v =? 0xFF) 256 = 136 /\
  how_many (fun v => pwm_of v =? 0x5F) 256 = 8.
Proof.
  assert (Hk : 0 <= 5 < 15) by lia.
  split; [exact Hk|].
  destruct (full_brightness_share 5 Hk) as (H1 & _ & H3).
  split; [exact H1|exact H3].
Defined.

(** ** A whole cycle *)

Lemma low_bits_of_RAND (s : cpu) : wf s -> Z.land (r20 s) 12 = Z.land (RAND s) 12.
Proof.
  intros Hwf. rewrite (r20_of_RAND s Hwf).
  change 256 with (2 ^ 8). rewrite <- Z.land_ones by lia.
  rewrite <- Z.land_assoc. reflexivity.
Qed.

Lemma idle_run (s : cpu) (m : nat) :
  wf s -> 0 <= r24 s -> r24 s mod 8 + Z.of_nat m < 8 -> r24 s + Z.of_nat m < 31 ->
  RAND (ticks m s) = RAND s /\ r20 (ticks m s) = r20 s /\
  events (ticks m s) = events s /\ OCR0A (ticks m s) = OCR0A s /\
  r24 (ticks m s) = r24 s + Z.of_nat m.
Proof.
  intros Hwf Hc H8 H31. induction m as [|m IH].
  - cbn [ticks Nat.iter Z.of_nat]. rewrite Z.add_0_r. repeat split.
  - destruct IH as (IR & I20 & Iev & Io & I24); [lia|lia|].
    rewrite ticks_S. pose proof (ticks_wf m s Hwf) as Hwfm.
    pose proof (ticks_next_ctr m s Hwf) as Hnext.
    assert (Hval : next_ctr (ticks m s) = r24 s + Z.of_nat (S m)).
    { rewrite Hnext. apply Z.mod_small. lia. }
    pose proof (quiet_tick (ticks m s) Hwfm) as Q. cbv zeta in Q.
    destruct Q as (QR & Q20 & Qev & Qo & Q24).
    + apply regenerates_false; [lia|left].
      rewrite Hval. Z.div_mod_to_equations. lia.
    + lia.
    + rewrite QR, Q20, Qev, Qo, Q24. repeat split; assumption.
Qed.

(** A regenerating tick that reaches frame 0, 8 or 16, with the seven
    ticks after it. *)
Lemma checkpoint_leg (s : cpu) :
  wf s -> r24 s = 31 \/ r24 s = 7 \/ r24 s = 15 -> regenerates s = true ->
  let s' := ticks 8 s in
  RAND s' = regen (RAND s) /\ OCR0A s' = OCR0A s /\ r24 s' = (r24 s + 8) mod 32.
Proof.
  intros Hwf Hc Hreg. cbv zeta.
  change 8%nat with (1 + 7)%nat. rewrite ticks_add.
  change (ticks 1 s) with (TIM0_OVF_vect s).
  pose proof (tick_effect s Hwf) as (Hwf1 & H24 & HR & _ & _ & Ho).
  rewrite Hreg in HR.
  assert (Hn : next_ctr s = (r24 s + 1) mod 32) by apply next_ctr_mod.
  assert (Hne : (next_ctr s =? 31) = false).
  { apply Z.eqb_neq. rewrite Hn. destruct Hc as [-> | [-> | ->]]; discriminate. }
  rewrite Hne in Ho.
  assert (H24' : r24 (TIM0_OVF_vect s) = 0 \/ r24 (TIM0_OVF_vect s) = 8 \/
                 r24 (TIM0_OVF_vect s) = 16).
  { rewrite H24, Hn. destruct Hc as [-> | [-> | ->]]; auto. }
  destruct (idle_run (TIM0_OVF_vect s) 7 Hwf1) as (IR & _ & _ & Io & I24).
  - lia.
  - destruct H24' as [-> | [-> | ->]]; reflexivity.
  - lia.
  - rewrite IR, Io, I24, HR, Ho. repeat split.
    rewrite H24, Hn. destruct Hc as [-> | [-> | ->]]; reflexivity.
Qed.

(** The tick that reaches frame 24, with the seven ticks after it, the
    last of which commits. *)
Lemma last_leg (s : cpu) :
  wf s -> r24 s = 23 ->
  let s' := ticks 8 s in
  RAND s' = (if regenerates s then regen (RAND s) else RAND s) /\
  OCR0A s' = pwm_of (r20 s') /\ r24 s' = 31.
Proof.
  intros Hwf Hc. cbv zeta.
  change 8%nat with (1 + 6 + 1)%nat. rewrite !ticks_add.
  change (ticks 1 s) with (TIM0_OVF_vect s).
  pose proof (tick_effect s Hwf) as (Hwf1 & H24 & HR & _).
  assert (Hn : next_ctr s = 24) by (rewrite next_ctr_mod, Hc; reflexivity).
  rewrite Hn in H24.
  destruct (idle_run (TIM0_OVF_vect s) 6 Hwf1) as (IR & I20 & _ & _ & I24);
    [lia|rewrite H24; reflexivity|lia|].
  set (t := ticks 6 (TIM0_OVF_vect s)) in *.
  assert (Hwft : wf t) by (apply ticks_wf, Hwf1).
  change (ticks 1 t) with (TIM0_OVF_vect t).
  assert (Hnt : next_ctr t = 31) by (rewrite next_ctr_mod, I24, H24; reflexivity).
  pose proof (tick_effect t Hwft) as (_ & Ht24 & HtR & _ & _ & Hto).
  rewrite (commit_frame_keeps t Hnt) in HtR. rewrite Hnt, Z.eqb_refl in Hto.
  rewrite HtR, Hto, Ht24, IR, HR. repeat split. exact Hnt.
Qed.

(** X14: a whole cycle.  Started right after a commit, 32 ticks leave the
    generator at the first of its next three values that passes the
    rejection test, or at the fourth when none does; that value's low
    byte is what the commit at the end of the cycle writes. *)
Theorem cycle_commits_first_accepted (s : cpu) :
  wf s -> FRAME_CTR s = 31 ->
  let s' := ticks 32 s in
  RAND s' = cycle_pick (RAND s) /\
  OCR0A s' = pwm_of (cycle_pick (RAND s) mod 256) /\
  FRAME_CTR s' = 31.
Proof.
  unfold FRAME_CTR. intros Hwf Hc.
  assert (Hgoal : RAND (ticks 32 s) = cycle_pick (RAND s) /\
                  OCR0A (ticks 32 s) = pwm_of (r20 (ticks 32 s)) /\
                  r24 (ticks 32 s) = 31).
  { unfold cycle_pick, accepted.
    (* frame 0 *)
    assert (HregA : regenerates s = true).
    { unfold regenerates. rewrite next_ctr_mod, Hc. reflexivity. }
    destruct (checkpoint_leg s Hwf (or_introl Hc) HregA) as (RA & _ & CA).
    rewrite Hc in CA. change ((31 + 8) mod 32) with 7 in CA.
    change 32%nat with (8 + 24)%nat. rewrite ticks_add.
    assert (HwfA : wf (ticks 8 s)) by apply ticks_wf, Hwf.
    revert RA CA HwfA. generalize (ticks 8 s). intros sA RA CA HwfA.
    rewrite <- RA, <- (low_bits_of_RAND sA HwfA).
    destruct (Z.land (r20 sA) 12 =? 0) eqn:EA; cbn [negb].
    2:{ apply Z.eqb_neq in EA.
        pose proof (accepted_value_is_committed sA HwfA) as K.
        unfold FRAME_CTR in K. rewrite CA in K. cbv zeta in K.
        destruct (K ltac:(lia) EA) as (K24 & KR & _ & Ko & _).
        change (Z.to_nat (31 - 7)) with 24%nat in *.
        rewrite KR, Ko. split; [reflexivity|]. split; [|exact K24].
        f_equal. rewrite !r20_of_RAND by (assumption || apply ticks_wf, HwfA).
        rewrite KR. reflexivity. }
    (* frame 8 *)
    apply Z.eqb_eq in EA.
    assert (HregB : regenerates sA = true).
    { unfold regenerates. rewrite next_ctr_mod, CA, EA. reflexivity. }
    destruct (checkpoint_leg sA HwfA (or_intror (or_introl CA)) HregB) as (RB & _ & CB).
    rewrite CA in CB. change ((7 + 8) mod 32) with 15 in CB.
    change 24%nat with (8 + 16)%nat. rewrite ticks_add.
    assert (HwfB : wf (ticks 8 sA)) by apply ticks_wf, HwfA.
    revert RB CB HwfB. generalize (ticks 8 sA). intros sB RB CB HwfB.
    rewrite <- RB, <- (low_bits_of_RAND sB HwfB).
    destruct (Z.land (r20 sB) 12 =? 0) eqn:EB; cbn [negb].
    2:{ apply Z.eqb_neq in EB.
        pose proof (accepted_value_is_committed sB HwfB) as K.
        unfold FRAME_CTR in K. rewrite CB in K. cbv zeta in K.
        destruct (K ltac:(lia) EB) as (K24 & KR & _ & Ko & _).
        change (Z.to_nat (31 - 15)) with 16%nat in *.
        rewrite KR, Ko. split; [reflexivity|]. split; [|exact K24].
        f_equal. rewrite !r20_of_RAND by (assumption || apply ticks_wf, HwfB).
        rewrite KR. reflexivity. }
    (* frame 16 *)
    apply Z.eqb_eq in EB.
    assert (HregC : regenerates sB = true).
    { unfold regenerates. rewrite next_ctr_mod, CB, EB. reflexivity. }
    destruct (checkpoint_leg sB HwfB (or_intror (or_intror CB)) HregC) as (RC & _ & CC).
    rewrite CB in CC. change ((15 + 8) mod 32) with 23 in CC.
    change 16%nat with (8 + 8)%nat. rewrite ticks_add.
    assert (HwfC : wf (ticks 8 sB)) by apply ticks_wf, HwfB.
    revert RC CC HwfC. generalize (ticks 8 sB). intros sC RC CC HwfC.
    rewrite <- RC, <- (low_bits_of_RAND sC HwfC).
    (* frame 24 *)
    destruct (last_leg sC HwfC CC) as (RD & OD & CD).
    assert (HregD : regenerates sC = (Z.land (r20 sC) 12 =? 0)).
    { unfold regenerates. rewrite next_ctr_mod, CC. reflexivity. }
    rewrite HregD in RD.
    split; [|split; [exact OD|exact CD]].
    rewrite RD. destruct (Z.land (r20 sC) 12 =? 0); reflexivity. }
  cbv zeta. destruct Hgoal as (GR & Go & G24).
  split; [exact GR|]. split; [|exact G24].
  rewrite Go, (r20_of_RAND _ (ticks_wf 32 s Hwf)), GR. reflexivity.
Qed.

Lemma cycle_commits_first_accepted_witness :
  wf frame0_example /\ FRAME_CTR frame0_example = 31 /\
  RAND (ticks 32 frame0_example) = cycle_pick 0.
Proof.
  assert (Hwf : wf frame0_example) by (unfold wf, is_byte; cbn; lia).
  split; [exact Hwf|]. split; [reflexivity|].
  exact (proj1 (cycle_commits_first_accepted frame0_example Hwf eq_refl)).
Defined.
